(** * webshare: address selection, prefix parsing and shutdown control

    A shallow embedding of the two versions of the [webshare] command
    ([cmd/webshare/main.go] and its successor with the [-t] flag) together
    with the parts of Go's standard library they call ([strings],
    [unicode], [unicode/utf8], [net], [context]).

    Go strings are byte sequences: they are modelled by [string], whose
    characters are the 256 values of [ascii].  A [net.IP] is a byte slice
    and is modelled by [list byte].  Output (log lines, QR codes, process
    exit) is modelled by an explicit trace of events. *)

From Stdlib Require Import ZArith NArith List String Ascii Bool Lia.
From Stdlib Require Import Strings.Byte DecimalString Permutation.
Import ListNotations.

Local Open Scope list_scope.
Local Open Scope string_scope.

(* ================================================================== *)
(** * Go's [unicode/utf8], [unicode] and [strings] packages            *)
(* ================================================================== *)

(** The functions of the standard library that [parsePrefixes] and the
    prefix test call, after the library's sources ([DecodeRuneInString],
    [IsSpace], [FieldsFunc], [Replace], [HasPrefix]). *)

Module GoStrings.

(** The i-th byte of a string as a number ([s[i]]); 0 past the end, where
    the callers below never look. *)
Definition byteAt (i : nat) (s : string) : N :=
  match String.get i s with
  | Some c => N_of_ascii c
  | None => 0%N
  end.

(** [s[n:]] *)
Fixpoint dropBytes (n : nat) (s : string) : string :=
  match n, s with
  | O, _ => s
  | S k, String _ s' => dropBytes k s'
  | S _, EmptyString => EmptyString
  end.

(** [s[:n]] *)
Fixpoint takeBytes (n : nat) (s : string) : string :=
  match n, s with
  | O, _ => EmptyString
  | S k, String c s' => String c (takeBytes k s')
  | S _, EmptyString => EmptyString
  end.

(** [utf8.RuneError] *)
Definition RuneError : N := 65533%N.

(** The table [utf8.first] together with [utf8.acceptRanges]: for a
    leading byte, the length of the sequence and the range allowed for
    the second byte. *)
Inductive firstInfo : Type :=
| IsASCII
| Invalid
| Lead (size : nat) (lo hi : N).

Definition first (b : N) : firstInfo :=
  if (b <? 128)%N then IsASCII
  else if (b <? 194)%N then Invalid            (* 0x80-0xC1 *)
  else if (b <? 224)%N then Lead 2 128 191     (* 0xC2-0xDF *)
  else if (b =? 224)%N then Lead 3 160 191     (* 0xE0 *)
  else if (b =? 237)%N then Lead 3 128 159     (* 0xED *)
  else if (b <? 240)%N then Lead 3 128 191     (* 0xE1-0xEF *)
  else if (b =? 240)%N then Lead 4 144 191     (* 0xF0 *)
  else if (b <? 244)%N then Lead 4 128 191     (* 0xF1-0xF3 *)
  else if (b =? 244)%N then Lead 4 128 143     (* 0xF4 *)
  else Invalid.                                (* 0xF5-0xFF *)

(** A continuation byte outside [lo, hi]. *)
Definition outside (lo hi b : N) : bool := (b <? lo)%N || (hi <? b)%N.

(** [utf8.DecodeRuneInString] after its test for the empty string: [s0]
    is the first byte of [s]. *)
Definition decodeFirst (s0 : N) (s : string) : N * nat :=
  match first s0 with
  | IsASCII => (s0, 1)
  | Invalid => (RuneError, 1)
  | Lead sz lo hi =>
    if (String.length s <? sz)%nat then (RuneError, 1)
    else
      let s1 := byteAt 1 s in
      if outside lo hi s1 then (RuneError, 1)
      else if (sz <=? 2)%nat then
        (N.lor (N.shiftl (N.land s0 31) 6) (N.land s1 63), 2)
      else
        let s2 := byteAt 2 s in
        if outside 128 191 s2 then (RuneError, 1)
        else if (sz <=? 3)%nat then
          (N.lor (N.lor (N.shiftl (N.land s0 15) 12)
                        (N.shiftl (N.land s1 63) 6))
                 (N.land s2 63), 3)
        else
          let s3 := byteAt 3 s in
          if outside 128 191 s3 then (RuneError, 1)
          else
            (N.lor (N.lor (N.lor (N.shiftl (N.land s0 7) 18)
                                 (N.shiftl (N.land s1 63) 12))
                          (N.shiftl (N.land s2 63) 6))
                   (N.land s3 63), 4)
  end.

(** [utf8.DecodeRuneInString]: the first rune of [s] and its width in
    bytes. *)
Definition DecodeRuneInString (s : string) : N * nat :=
  match s with
  | EmptyString => (RuneError, 0)
  | String c0 _ => decodeFirst (N_of_ascii c0) s
  end.

(** [for i, r := range s]: the runes of [s] in order, each with the bytes
    it was decoded from.  Every step consumes at least one byte, so
    [length s] steps are enough. *)
Fixpoint rangeFuel (fuel : nat) (s : string) : list (N * string) :=
  match fuel with
  | O => []
  | S k =>
    match s with
    | EmptyString => []
    | _ =>
      let '(r, n) := DecodeRuneInString s in
      (r, takeBytes n s) :: rangeFuel k (dropBytes n s)
    end
  end.

Definition rangeString (s : string) : list (N * string) :=
  rangeFuel (String.length s) s.

(** [unicode.IsSpace] *)
Definition IsSpace (r : N) : bool :=
  if (r <=? 255)%N then
    ((9 <=? r) && (r <=? 13))%N          (* \t \n \v \f \r *)
    || (r =? 32)%N || (r =? 133)%N || (r =? 160)%N
  else
    (r =? 5760)%N                                  (* U+1680 *)
    || ((8192 <=? r) && (r <=? 8202))%N            (* U+2000-U+200A *)
    || (r =? 8232)%N || (r =? 8233)%N              (* U+2028, U+2029 *)
    || (r =? 8239)%N || (r =? 8287)%N              (* U+202F, U+205F *)
    || (r =? 12288)%N.                             (* U+3000 *)

(** The loop of [strings.FieldsFunc].  [start] is the field being read,
    if any ([start >= 0] in the Go code), given by its bytes so far. *)
Fixpoint fieldsLoop (f : N -> bool) (runes : list (N * string))
         (start : option string) : list string :=
  match runes with
  | [] =>
    match start with
    | Some w => [w]
    | None => []
    end
  | (r, bytes) :: rest =>
    if f r then
      match start with
      | Some w => w :: fieldsLoop f rest None
      | None => fieldsLoop f rest None
      end
    else
      match start with
      | Some w => fieldsLoop f rest (Some (w ++ bytes))
      | None => fieldsLoop f rest (Some bytes)
      end
  end.

Definition FieldsFunc (s : string) (f : N -> bool) : list string :=
  fieldsLoop f (rangeString s) None.

(** [strings.Fields].  Go has a fast path for strings of ASCII bytes only;
    it returns what [FieldsFunc(s, unicode.IsSpace)] returns. *)
Definition Fields (s : string) : list string := FieldsFunc s IsSpace.

(** [strings.HasPrefix(s, prefix)] *)
Definition HasPrefix (s pre : string) : bool := String.prefix pre s.

(** The scan of [strings.Replace] for a non-empty [old]: occurrences are
    found left to right and do not overlap.  [skip] counts the bytes of
    the occurrence just replaced that are still to be passed over. *)
Fixpoint replaceScan (old new : string) (skip : nat) (s : string) : string :=
  match s with
  | EmptyString => EmptyString
  | String c s' =>
    match skip with
    | S k => replaceScan old new k s'
    | O =>
      if String.prefix old s
      then new ++ replaceScan old new (String.length old - 1) s'
      else String c (replaceScan old new 0 s')
    end
  end.

(** [strings.ReplaceAll].  An empty [old] matches before every rune and
    at the end of the string. *)
Definition ReplaceAll (s old new : string) : string :=
  if String.eqb old new then s
  else if String.eqb old EmptyString then
    new ++ String.concat EmptyString
                         (map (fun rb => snd rb ++ new) (rangeString s))
  else replaceScan old new 0 s.

End GoStrings.

(* ================================================================== *)
(** * Go's [net] package: addresses, networks and CIDR parsing         *)
(* ================================================================== *)

(** The functions of [net] the program calls, after the library's
    sources: [To4], [IsLoopback], [IsLinkLocalUnicast],
    [IsLinkLocalMulticast], [Contains], [CIDRMask], [Mask], [ParseCIDR]
    with [parseIPv4], [parseIPv6], [dtoi] and [xtoi], and [String]. *)

Module GoNet.
Import GoStrings.
Local Open Scope list_scope.

(** [net.IP] and [net.IPMask] are byte slices.  A [nil] result of a Go
    function is [None] here. *)
Definition IP : Type := list byte.
Definition IPMask : Type := list byte.

Record IPNet : Type := mkIPNet { netIP : IP; netMask : IPMask }.

Definition IPv4len : nat := 4.
Definition IPv6len : nat := 16.

(** [byte(n)]: conversion with truncation. *)
Definition byteOfN (n : N) : byte :=
  match Byte.of_N (n mod 256) with
  | Some b => b
  | None => x00
  end.

(** [ip[i]] as a number. *)
Definition at_ (ip : list byte) (i : nat) : N := Byte.to_N (nth i ip x00).

Definition zeros (n : nat) : list byte := repeat x00 n.

Definition v4InV6Prefix : list byte := zeros 10 ++ [xff; xff].

(** [net.IPv4(a, b, c, d)]: the 16-byte form of an IPv4 address. *)
Definition IPv4 (a b c d : byte) : IP := v4InV6Prefix ++ [a; b; c; d].

Definition IPv6loopback : IP := zeros 15 ++ [x01].

(** [bytealg.Equal] *)
Fixpoint bytesEqual (x y : list byte) : bool :=
  match x, y with
  | [], [] => true
  | a :: x', b :: y' => Byte.eqb a b && bytesEqual x' y'
  | _, _ => false
  end.

Definition isZeros (p : list byte) : bool :=
  forallb (fun b => (Byte.to_N b =? 0)%N) p.

Definition allFF (p : list byte) : bool :=
  forallb (fun b => (Byte.to_N b =? 255)%N) p.

(** [ip.To4()] *)
Definition To4 (ip : IP) : option IP :=
  if (List.length ip =? IPv4len)%nat then Some ip
  else if (List.length ip =? IPv6len)%nat
          && isZeros (firstn 10 ip)
          && (at_ ip 10 =? 255)%N
          && (at_ ip 11 =? 255)%N
  then Some (firstn 4 (skipn 12 ip))
  else None.

(** [ip.Equal(x)] *)
Definition Equal (ip x : IP) : bool :=
  if (List.length ip =? List.length x)%nat then bytesEqual ip x
  else if (List.length ip =? IPv4len)%nat && (List.length x =? IPv6len)%nat then
    bytesEqual (firstn 12 x) v4InV6Prefix && bytesEqual ip (skipn 12 x)
  else if (List.length ip =? IPv6len)%nat && (List.length x =? IPv4len)%nat then
    bytesEqual (firstn 12 ip) v4InV6Prefix && bytesEqual (skipn 12 ip) x
  else false.

(** [ip.IsLoopback()] *)
Definition IsLoopback (ip : IP) : bool :=
  match To4 ip with
  | Some ip4 => (at_ ip4 0 =? 127)%N
  | None => Equal ip IPv6loopback
  end.

(** [ip.IsLinkLocalUnicast()] *)
Definition IsLinkLocalUnicast (ip : IP) : bool :=
  match To4 ip with
  | Some ip4 => (at_ ip4 0 =? 169)%N && (at_ ip4 1 =? 254)%N
  | None =>
    (List.length ip =? IPv6len)%nat
    && (at_ ip 0 =? 254)%N && (N.land (at_ ip 1) 192 =? 128)%N
  end.

(** [ip.IsLinkLocalMulticast()] *)
Definition IsLinkLocalMulticast (ip : IP) : bool :=
  match To4 ip with
  | Some ip4 => (at_ ip4 0 =? 224)%N && (at_ ip4 1 =? 0)%N && (at_ ip4 2 =? 0)%N
  | None =>
    (List.length ip =? IPv6len)%nat
    && (at_ ip 0 =? 255)%N && (N.land (at_ ip 1) 15 =? 2)%N
  end.

(** [net.networkNumberAndMask] *)
Definition networkNumberAndMask (n : IPNet) : option (IP * IPMask) :=
  let ip0 :=
    match To4 (netIP n) with
    | Some ip4 => Some ip4
    | None => if (List.length (netIP n) =? IPv6len)%nat then Some (netIP n) else None
    end in
  match ip0 with
  | None => None
  | Some ip =>
    let m := netMask n in
    if (List.length m =? IPv4len)%nat then
      if (List.length ip =? IPv4len)%nat then Some (ip, m) else None
    else if (List.length m =? IPv6len)%nat then
      if (List.length ip =? IPv4len)%nat then Some (ip, skipn 12 m) else Some (ip, m)
    else None
  end.

(** The comparison loop of [Contains]: [nn[i]&m[i] == ip[i]&m[i]] for
    every index of [ip]. *)
Fixpoint maskedEqual (nn m ip : list byte) : bool :=
  match ip with
  | [] => true
  | b :: ip' =>
    (N.land (at_ nn 0) (at_ m 0) =? N.land (Byte.to_N b) (at_ m 0))%N
    && maskedEqual (tl nn) (tl m) ip'
  end.

(** [n.Contains(ip)] *)
Definition Contains (n : IPNet) (ip : IP) : bool :=
  match networkNumberAndMask n with
  | None =>
    (* nn is nil: the lengths agree only for an empty ip *)
    let ip' := match To4 ip with Some x => x | None => ip end in
    (List.length ip' =? 0)%nat
  | Some (nn, m) =>
    let ip' := match To4 ip with Some x => x | None => ip end in
    if negb (List.length ip' =? List.length nn)%nat then false
    else maskedEqual nn m ip'
  end.

(** The loop of [net.CIDRMask]. *)
Fixpoint cidrMaskBytes (l : nat) (n : N) : list byte :=
  match l with
  | O => []
  | S l' =>
    if (8 <=? n)%N then xff :: cidrMaskBytes l' (n - 8)
    else byteOfN (255 - N.shiftr 255 n) :: cidrMaskBytes l' 0
  end.

(** [net.CIDRMask(ones, bits)] *)
Definition CIDRMask (ones bits : Z) : option IPMask :=
  if negb (bits =? 32)%Z && negb (bits =? 128)%Z then None
  else if (ones <? 0)%Z || (bits <? ones)%Z then None
  else Some (cidrMaskBytes (Z.to_nat (bits / 8)) (Z.to_N ones)).

(** [ip.Mask(mask)] *)
Definition Mask (ip : IP) (mask : IPMask) : option IP :=
  let mask :=
    if (List.length mask =? IPv6len)%nat && (List.length ip =? IPv4len)%nat
       && allFF (firstn 12 mask)
    then skipn 12 mask else mask in
  let ip :=
    if (List.length mask =? IPv4len)%nat && (List.length ip =? IPv6len)%nat
       && bytesEqual (firstn 12 ip) v4InV6Prefix
    then skipn 12 ip else ip in
  if negb (List.length ip =? List.length mask)%nat then None
  else Some (map (fun bm => byteOfN (N.land (Byte.to_N (fst bm)) (Byte.to_N (snd bm))))
                 (combine ip mask)).

(** [big] of [net/parse.go]: bigger than any number that is needed. *)
Definition big : N := 16777215%N.

Definition isDigit (d : N) : bool := ((48 <=? d) && (d <=? 57))%N.

(** The digit value of a hexadecimal character, if it is one. *)
Definition hexVal (d : N) : option N :=
  if isDigit d then Some (d - 48)%N
  else if ((97 <=? d) && (d <=? 102))%N then Some (d - 97 + 10)%N
  else if ((65 <=? d) && (d <=? 70))%N then Some (d - 65 + 10)%N
  else None.

Definition numEnd (n : N) (i : nat) : N * nat * bool :=
  match i with
  | O => (0%N, O, false)
  | _ => (n, i, true)
  end.

(** [net.dtoi]: decimal to integer; the value, the number of characters
    consumed and success. *)
Fixpoint dtoiLoop (s : string) (n : N) (i : nat) : N * nat * bool :=
  match s with
  | String c s' =>
    let d := N_of_ascii c in
    if isDigit d then
      let n' := (n * 10 + (d - 48))%N in
      if (big <=? n')%N then (big, i, false) else dtoiLoop s' n' (S i)
    else numEnd n i
  | EmptyString => numEnd n i
  end.

Definition dtoi (s : string) : N * nat * bool := dtoiLoop s 0%N O.

(** [net.xtoi]: hexadecimal to integer. *)
Fixpoint xtoiLoop (s : string) (n : N) (i : nat) : N * nat * bool :=
  match s with
  | String c s' =>
    match hexVal (N_of_ascii c) with
    | Some d =>
      let n' := (n * 16 + d)%N in
      if (big <=? n')%N then (0%N, i, false) else xtoiLoop s' n' (S i)
    | None => numEnd n i
    end
  | EmptyString => numEnd n i
  end.

Definition xtoi (s : string) : N * nat * bool := xtoiLoop s 0%N O.

(** The loop of [net.parseIPv4]: [todo] fields are still to be read, [i]
    have been read into [p]. *)
Fixpoint parseIPv4Fields (todo i : nat) (s : string) (p : list byte)
  : option (list byte * string) :=
  match todo with
  | O => Some (p, s)
  | S todo' =>
    if (String.length s =? 0)%nat then None
    else
      let dot :=
        if (0 <? i)%nat then
          if (byteAt 0 s =? 46)%N then Some (dropBytes 1 s) else None
        else Some s in
      match dot with
      | None => None
      | Some s =>
        let '(n, c, ok) := dtoi s in
        if negb ok || (255 <? n)%N then None
        else if (1 <? c)%nat && (byteAt 0 s =? 48)%N then None
        else parseIPv4Fields todo' (S i) (dropBytes c s) (p ++ [byteOfN n])
      end
  end.

(** [net.parseIPv4]: the address in its 16-byte form. *)
Definition parseIPv4 (s : string) : option IP :=
  match parseIPv4Fields IPv4len 0 s [] with
  | Some ([a; b; c; d], EmptyString) => Some (IPv4 a b c d)
  | _ => None
  end.

(** The main loop of [net.parseIPv6].  The Go code writes the bytes into
    a 16-byte array at index [i]; here [ip] holds the [i] bytes written so
    far.  The loop runs while [i < 16] and every round that continues
    adds two bytes, so eight rounds are enough.  The result is the state
    at the end of the loop, [None] when the function returns [nil]. *)
Fixpoint parseIPv6Loop (fuel : nat) (ip : list byte) (ellipsis : option nat)
         (s : string) : option (list byte * option nat * string) :=
  match fuel with
  | O => Some (ip, ellipsis, s)
  | S fuel' =>
    if (IPv6len <=? List.length ip)%nat then Some (ip, ellipsis, s)
    else
      let '(n, c, ok) := xtoi s in
      if negb ok || (65535 <? n)%N then None
      else if (c <? String.length s)%nat && (byteAt c s =? 46)%N then
        (* followed by a dot: a trailing IPv4 address *)
        if match ellipsis with None => true | Some _ => false end
           && negb (List.length ip =? IPv6len - IPv4len)%nat then None
        else if (IPv6len <? List.length ip + IPv4len)%nat then None
        else
          match parseIPv4 s with
          | None => None
          | Some ip4 => Some (ip ++ skipn 12 ip4, ellipsis, EmptyString)
          end
      else
        let ip := ip ++ [byteOfN (N.shiftr n 8); byteOfN n] in
        let s := dropBytes c s in
        if (String.length s =? 0)%nat then Some (ip, ellipsis, s)
        else if negb (byteAt 0 s =? 58)%N || (String.length s =? 1)%nat then None
        else
          let s := dropBytes 1 s in
          if (byteAt 0 s =? 58)%N then
            match ellipsis with
            | Some _ => None
            | None =>
              let s := dropBytes 1 s in
              if (String.length s =? 0)%nat then Some (ip, Some (List.length ip), s)
              else parseIPv6Loop fuel' ip (Some (List.length ip)) s
            end
          else parseIPv6Loop fuel' ip ellipsis s
  end.

(** [net.parseIPv6] (without zone).  Expanding the ellipsis moves the
    bytes after it to the end of the array and fills the gap with
    zeros. *)
Definition parseIPv6 (s : string) : option IP :=
  let lead := (2 <=? String.length s)%nat
              && (byteAt 0 s =? 58)%N && (byteAt 1 s =? 58)%N in
  let ellipsis := if lead then Some O else None in
  let s := if lead then dropBytes 2 s else s in
  if lead && (String.length s =? 0)%nat then Some (zeros IPv6len)
  else
    match parseIPv6Loop 8 [] ellipsis s with
    | None => None
    | Some (ip, ellipsis, s) =>
      if negb (String.length s =? 0)%nat then None
      else if (List.length ip <? IPv6len)%nat then
        match ellipsis with
        | None => None
        | Some e =>
          Some (firstn e ip ++ zeros (IPv6len - List.length ip) ++ skipn e ip)
        end
      else
        match ellipsis with
        | Some _ => None
        | None => Some ip
        end
    end.

(** The position of the first [/] of [s] ([bytealg.IndexByteString]). *)
Fixpoint indexSlash (s : string) : option nat :=
  match s with
  | EmptyString => None
  | String c s' =>
    if (N_of_ascii c =? 47)%N then Some O
    else match indexSlash s' with
         | Some i => Some (S i)
         | None => None
         end
  end.

(** [net.ParseCIDR]: the address and the network, or the text of the
    [ParseError] (*invalid CIDR address: s*). *)
Definition ParseCIDR (s : string) : (IP * IPNet) + string :=
  let err := inr ("invalid CIDR address: " ++ s)%string in
  match indexSlash s with
  | None => err
  | Some i =>
    let addr := takeBytes i s in
    let mask := dropBytes (S i) s in
    let '(iplen, ip) :=
      match parseIPv4 addr with
      | Some ip => (IPv4len, Some ip)
      | None => (IPv6len, parseIPv6 addr)
      end in
    let '(n, j, ok) := dtoi mask in
    match ip with
    | None => err
    | Some ip =>
      if negb ok || negb (j =? String.length mask)%nat
         || (N.of_nat (8 * iplen) <? n)%N then err
      else
        match CIDRMask (Z.of_N n) (Z.of_nat (8 * iplen)) with
        | None => err
        | Some m =>
          match Mask ip m with
          | None => err
          | Some nip => inl (ip, mkIPNet nip m)
          end
        end
    end
  end.

(** [hexDigit[v]] of [net/parse.go]. *)
Definition hexDigit (v : N) : string :=
  String (ascii_of_N (if (v <? 10)%N then 48 + v else 97 + (v - 10))) EmptyString.

(** [net.appendHex]: lower-case hexadecimal without leading zeros. *)
Definition appendHex (i : N) : string :=
  if (i =? 0)%N then "0"%string
  else
    String.concat EmptyString
      (map (fun j => let v := N.shiftr i (4 * j) in
                     if (0 <? v)%N then hexDigit (N.land v 15) else EmptyString)
           [7; 6; 5; 4; 3; 2; 1; 0]%N).

(** [net.hexString]: two digits for every byte. *)
Definition hexString (b : list byte) : string :=
  String.concat EmptyString
    (map (fun x => (hexDigit (N.shiftr (Byte.to_N x) 4)
                    ++ hexDigit (N.land (Byte.to_N x) 15))%string) b).

(** [net.ubtoa] and the [%d] verb: decimal notation. *)
Definition ubtoa (b : byte) : string :=
  NilZero.string_of_uint (N.to_uint (Byte.to_N b)).

Definition itoa (n : Z) : string := NilZero.string_of_int (Z.to_int n).

(** The eight 16-bit groups of a 16-byte address. *)
Definition groups (ip : IP) : list N :=
  map (fun k => N.lor (N.shiftl (at_ ip (2 * k)) 8) (at_ ip (2 * k + 1)))
      (seq 0 8).

Fixpoint zeroRun (gs : list N) : nat :=
  match gs with
  | g :: rest => if (g =? 0)%N then S (zeroRun rest) else O
  | [] => O
  end.

(** The first longest run of zero groups, as its start and its length:
    the first loop of [IP.String] for a 16-byte address.  [best] starts
    as the empty run. *)
Fixpoint longestZeroRun (i : nat) (gs : list N) (best : nat * nat) : nat * nat :=
  match gs with
  | [] => best
  | _ :: rest =>
    let l := zeroRun gs in
    longestZeroRun (S i) rest (if (snd best <? l)%nat then (i, l) else best)
  end.

(** The second loop of [IP.String]: the groups in hexadecimal, with [::]
    in place of the groups [e0 .. e1 - 1]. *)
Fixpoint printGroups (fuel i : nat) (gs : list N) (e : option (nat * nat)) : string :=
  match fuel with
  | O => EmptyString
  | S fuel' =>
    if (8 <=? i)%nat then EmptyString
    else
      let plain :=
        ((if (0 <? i)%nat then ":" else "") ++ appendHex (nth i gs 0%N)
         ++ printGroups fuel' (S i) gs e)%string in
      match e with
      | Some (e0, e1) =>
        if (i =? e0)%nat then
          if (8 <=? e1)%nat then "::"%string
          else ("::" ++ appendHex (nth e1 gs 0%N)
                ++ printGroups fuel' (S e1) gs e)%string
        else plain
      | None => plain
      end
  end.

(** [ip.String()] *)
Definition IP_String (ip : IP) : string :=
  if (List.length ip =? 0)%nat then "<nil>"%string
  else
    match To4 ip with
    | Some p4 =>
      (ubtoa (nth 0 p4 x00) ++ "." ++ ubtoa (nth 1 p4 x00) ++ "."
       ++ ubtoa (nth 2 p4 x00) ++ "." ++ ubtoa (nth 3 p4 x00))%string
    | None =>
      if negb (List.length ip =? IPv6len)%nat then ("?" ++ hexString ip)%string
      else
        let gs := groups ip in
        let '(e0, l) := longestZeroRun 0 gs (O, O) in
        (* [::] is not used to shorten a single zero group *)
        printGroups 8 0 gs (if (l <=? 1)%nat then None else Some (e0, e0 + l)%nat)
    end.

End GoNet.

(* ================================================================== *)
(** * Go's [path] package                                              *)
(* ================================================================== *)

(** [path.Clean] and [path.Join], after the library's sources.  The
    buffer of [Clean] is kept as the list of the bytes written so far,
    the last one first; its length is the write index [out.w]. *)

Module GoPath.
Local Open Scope list_scope.

Definition slash : ascii := "/"%char.
Definition dot : ascii := "."%char.

(** The inner loop of the [..] case: bytes are dropped from the end of
    the buffer until the byte dropped is a slash or the index reaches
    [dotdot]. *)
Fixpoint backtrack (dotdot : nat) (out : list ascii) : list ascii :=
  match out with
  | [] => []
  | c :: r =>
    if (dotdot <? List.length r)%nat && negb (Ascii.eqb c slash)
    then backtrack dotdot r
    else r
  end.

(** The copy loop of the default case: the bytes up to the next slash
    are appended; the text from that slash on is returned with the
    buffer. *)
Fixpoint copyElement (rest : string) (out : list ascii) : string * list ascii :=
  match rest with
  | EmptyString => (EmptyString, out)
  | String c rest' =>
    if Ascii.eqb c slash then (rest, out) else copyElement rest' (c :: out)
  end.

(** The text begins with [.] and the end of the path or a slash. *)
Definition atDot (rest : string) : option string :=
  match rest with
  | String c1 EmptyString => if Ascii.eqb c1 dot then Some EmptyString else None
  | String c1 (String c2 r as rest') =>
    if Ascii.eqb c1 dot && Ascii.eqb c2 slash then Some rest' else None
  | _ => None
  end.

(** The text begins with [..] and the end of the path or a slash. *)
Definition atDotDot (rest : string) : option string :=
  match rest with
  | String c1 (String c2 EmptyString) =>
    if Ascii.eqb c1 dot && Ascii.eqb c2 dot then Some EmptyString else None
  | String c1 (String c2 (String c3 r as rest')) =>
    if Ascii.eqb c1 dot && Ascii.eqb c2 dot && Ascii.eqb c3 slash
    then Some rest' else None
  | _ => None
  end.

(** The main loop of [Clean]: [rest] is [path[r:]].  Every round reads
    at least one byte, so [len(path)] rounds are enough. *)
Fixpoint cleanLoop (fuel : nat) (rooted : bool) (rest : string)
         (out : list ascii) (dotdot : nat) : list ascii :=
  match fuel with
  | O => out
  | S fuel' =>
    match rest with
    | EmptyString => out
    | String c rest' =>
      if Ascii.eqb c slash then
        (* empty path element *)
        cleanLoop fuel' rooted rest' out dotdot
      else
        match atDot rest with
        | Some rest1 =>
          (* . element *)
          cleanLoop fuel' rooted rest1 out dotdot
        | None =>
          match atDotDot rest with
          | Some rest2 =>
            (* .. element: remove to last / *)
            if (dotdot <? List.length out)%nat then
              cleanLoop fuel' rooted rest2 (backtrack dotdot out) dotdot
            else if negb rooted then
              let out1 := if (0 <? List.length out)%nat then slash :: out else out in
              let out2 := dot :: dot :: out1 in
              cleanLoop fuel' rooted rest2 out2 (List.length out2)
            else cleanLoop fuel' rooted rest2 out dotdot
          | None =>
            (* real path element: add slash if needed, copy element *)
            let out1 :=
              if (rooted && negb (List.length out =? 1)%nat)
                 || (negb rooted && negb (List.length out =? 0)%nat)
              then slash :: out else out in
            let '(rest3, out2) := copyElement rest out1 in
            cleanLoop fuel' rooted rest3 out2 dotdot
          end
        end
    end
  end.

(** [path.Clean] *)
Definition Clean (path : string) : string :=
  match path with
  | EmptyString => "."%string
  | String c rest =>
    let rooted := Ascii.eqb c slash in
    let out :=
      if rooted then cleanLoop (String.length path) true rest [slash] 1
      else cleanLoop (String.length path) false path [] 0 in
    match out with
    | [] => "."%string
    | _ => string_of_list_ascii (rev out)
    end
  end.

(** The loop of [path.Join] that puts the elements together. *)
Fixpoint joinElems (elem : list string) (buf : string) : string :=
  match elem with
  | [] => buf
  | e :: rest =>
    if negb (String.length buf =? 0)%nat || negb (String.eqb e EmptyString) then
      joinElems rest
        (((if negb (String.length buf =? 0)%nat then buf ++ "/" else buf) ++ e)%string)
    else joinElems rest buf
  end.

(** [path.Join] *)
Definition Join (elem : list string) : string :=
  if (fold_left (fun size e => size + String.length e) elem 0 =? 0)%nat
  then EmptyString
  else Clean (joinElems elem EmptyString).

End GoPath.

(* ================================================================== *)
(** * The world around the program                                     *)
(* ================================================================== *)

Import GoStrings GoNet.

(** A [net.Addr] returned by [net.InterfaceAddrs]: a [*net.IPNet] or a
    value of another type, for which the type assertion fails. *)
Inductive Addr : Type :=
| AddrIPNet (ipnet : IPNet)
| AddrOther (network text : string).

(** [qrterminal.Config]; the writer is always [os.Stdout]. *)
Inductive qrLevel : Type := LevelL | LevelM | LevelH.
Inductive qrChar : Type := BLACK | WHITE.

Record Config : Type := mkConfig {
  Level : qrLevel;
  BlackChar : qrChar;
  WhiteChar : qrChar;
  QuietZone : Z
}.

(** What the program does to the outside, in order. *)
Inductive event : Type :=
| HttpHandle (pattern dir : string)
    (* http.Handle(pattern, loggingHandler(http.FileServer(http.Dir(dir)))) *)
| LogPrintf (line : string)           (* log.Printf and log.Println *)
| LogPrintfDuration (format : string) (d : Z)
    (* log.Printf(format, d) for a time.Duration of d nanoseconds *)
| LogFatal (err : string)            (* prints err, then os.Exit(1) *)
| GenerateWithConfig (text : string) (config : Config)
| ListenAndServe (addr : string).

(** How the part of [main] before serving ends. *)
Inductive outcome : Type :=
| Exited (code : Z)
| Serving (addr : string).

(** What the program reads: the parsed flags and the answer of
    [net.InterfaceAddrs] (the addresses, or the text of the error). *)
Record Env : Type := mkEnv {
  port : Z;
  directory : string;
  qrPrefix : string;
  InterfaceAddrs : list Addr + string
}.

(** What [loggingHandler] reads of an [*http.Request]. *)
Record Request : Type := mkRequest {
  RemoteAddr : string;
  Method : string;
  URLPath : string
}.

(** What a handler does to the outside, in order. *)
Inductive handlerEvent : Type :=
| Println (line : string)              (* log.Println *)
| OsOpen (name : string)               (* os.Open(name) *)
| Printf (line : string)               (* log.Printf *)
| ServeHTTP (r : Request)              (* h.ServeHTTP(w, r) of the wrapped handler *)
| FileClose (name : string).           (* the deferred file.Close() *)

(** The file system as [loggingHandler] sees it: for a name, [None] when
    [os.Open] fails; else the answer of [file.Stat], [None] when it fails
    and the size of the file when it succeeds. *)
Definition FileSystem : Type := string -> option (option Z).

(** The value a failed [setupPrivateIPBlocks] panics with,
    [fmt.Errorf("parse error on %q: %v", cidr, err)], kept as its two
    arguments. *)
Record panicValue : Type := mkPanic { panicCidr : string; panicErr : string }.

(** The calls of the Presentation Sink in a trace: the texts handed to
    [qrterminal.GenerateWithConfig]. *)
Fixpoint sinkCalls (tr : list event) : list string :=
  match tr with
  | [] => []
  | GenerateWithConfig text _ :: rest => text :: sinkCalls rest
  | _ :: rest => sinkCalls rest
  end.

(** The log lines of a trace. *)
Fixpoint logLines (tr : list event) : list string :=
  match tr with
  | [] => []
  | LogPrintf line :: rest => line :: logLines rest
  | _ :: rest => logLines rest
  end.

(* ================================================================== *)
(** * cmd/webshare/main.go                                             *)
(* ================================================================== *)

Module MainGo.

(** [parsePrefixes] parses comma or space separated prefix values. *)
Definition parsePrefixes (input : string) : list string :=
  let parts := Fields (ReplaceAll input "," " ") in
  parts.

Definition builtinCIDRs : list string :=
  [ "127.0.0.0/8";    (* IPv4 loopback *)
    "10.0.0.0/8";     (* RFC1918 *)
    "172.16.0.0/12";  (* RFC1918 *)
    "192.168.0.0/16"; (* RFC1918 *)
    "169.254.0.0/16"; (* RFC3927 link-local *)
    "::1/128";        (* IPv6 loopback *)
    "fe80::/10";      (* IPv6 link-local *)
    "fc00::/7" ].     (* IPv6 unique local addr *)

(** The loop of [setupPrivateIPBlocks] over a list of CIDR texts;
    [privateIPBlocks] is the package variable it appends to. *)
Fixpoint setupLoop (cidrs : list string) (privateIPBlocks : list IPNet)
  : list IPNet + panicValue :=
  match cidrs with
  | [] => inl privateIPBlocks
  | cidr :: rest =>
    match ParseCIDR cidr with
    | inr err => inr (mkPanic cidr err)
    | inl (_, block) => setupLoop rest (privateIPBlocks ++ [block])%list
    end
  end.

Definition setupPrivateIPBlocks (privateIPBlocks : list IPNet)
  : list IPNet + panicValue :=
  setupLoop builtinCIDRs privateIPBlocks.

(** [init]: the package variable starts as [nil]. *)
Definition init : list IPNet + panicValue := setupPrivateIPBlocks [].

(** The package variable [privateIPBlocks] once [init] has run. *)
Definition privateIPBlocks : list IPNet :=
  match init with
  | inl blocks => blocks
  | inr _ => []
  end.

Fixpoint anyContains (blocks : list IPNet) (ip : IP) : bool :=
  match blocks with
  | [] => false
  | block :: rest => if Contains block ip then true else anyContains rest ip
  end.

Definition isPrivateIPIn (blocks : list IPNet) (ip : IP) : bool :=
  if IsLoopback ip || IsLinkLocalUnicast ip || IsLinkLocalMulticast ip then true
  else anyContains blocks ip.

Definition isPrivateIP (ip : IP) : bool := isPrivateIPIn privateIPBlocks ip.

Definition config : Config := mkConfig LevelM WHITE BLACK 1.

(** The local variables of [main] that the loops update. *)
Record locals : Type := mkLocals {
  qrGenerated : bool;
  fallbackIP : option IP;
  fallbackLink : string
}.

(** [for _, prefix := range prefixes]: the QR code for the first prefix
    that matches, then [break]. *)
Fixpoint prefixLoop (text link : string) (prefixes : list string) (st : locals)
  : locals * list event :=
  match prefixes with
  | [] => (st, [])
  | prefix :: rest =>
    if HasPrefix text prefix then
      (mkLocals true (fallbackIP st) (fallbackLink st),
       [GenerateWithConfig link config])
    else prefixLoop text link rest st
  end.

(** The body of [for _, addr := range addrs]. *)
Definition visitAddr (port : Z) (prefixes : list string) (st : locals) (addr : Addr)
  : locals * list event :=
  match addr with
  | AddrIPNet ipnet =>
    match To4 (netIP ipnet) with
    | Some _ =>
      let mark := if isPrivateIP (netIP ipnet) then "private" else "public" in
      let link := "http://" ++ IP_String (netIP ipnet) ++ ":" ++ itoa port in
      let '(st1, qr) := prefixLoop (IP_String (netIP ipnet)) link prefixes st in
      let st2 :=
        if negb (isPrivateIP (netIP ipnet))
           && match fallbackIP st1 with None => true | Some _ => false end
        then mkLocals (qrGenerated st1) (Some (netIP ipnet)) link
        else st1 in
      (st2, LogPrintf (link ++ " [" ++ mark ++ "]") :: qr)
    | None => (st, [])
    end
  | AddrOther _ _ => (st, [])
  end.

Fixpoint addrLoop (port : Z) (prefixes : list string) (addrs : list Addr) (st : locals)
  : locals * list event :=
  match addrs with
  | [] => (st, [])
  | addr :: rest =>
    let '(st1, tr1) := visitAddr port prefixes st addr in
    let '(st2, tr2) := addrLoop port prefixes rest st1 in
    (st2, (tr1 ++ tr2)%list)
  end.

(** Lines 99-138 of [main]: the prefixes are parsed, the addresses are
    visited, and the first public address is presented when no prefix
    matched. *)
Definition selection (port : Z) (qrPrefix : string) (addrs : list Addr)
  : list event :=
  let prefixes := parsePrefixes qrPrefix in
  let '(st, tr) := addrLoop port prefixes addrs (mkLocals false None "") in
  if negb (qrGenerated st)
     && match fallbackIP st with None => false | Some _ => true end
  then (tr ++ [GenerateWithConfig (fallbackLink st) config])%list
  else tr.

(** [main], from its start to the call of [http.ListenAndServe]. *)
Definition main (env : Env) : list event * outcome :=
  let handle := HttpHandle "/" (directory env) in
  match InterfaceAddrs env with
  | inr err => ([handle; LogFatal err], Exited 1)
  | inl addrs =>
    let addr := ":" ++ itoa (port env) in
    ((handle :: selection (port env) (qrPrefix env) addrs
             ++ [ListenAndServe addr])%list, Serving addr)
  end.

(** The process: [init] runs before [main]; a panic in it ends the
    process before [main] starts. *)
Definition run (env : Env) : panicValue + list event * outcome :=
  match init with
  | inr p => inl p
  | inl _ => inr (main env)
  end.

(** The default values of the flags [-p], [-d] and [-q]. *)
Definition defaultPort : Z := 3000.
Definition defaultDirectory : string := ".".
Definition defaultQrPrefix : string := "192".

(** [loggingHandler(h)] serving the request [r]: the request is logged,
    the file it names is opened for its name and size, and the request is
    handed to [h].  [file.Name()] is the name given to [os.Open]; the
    deferred [file.Close()] runs when the handler returns. *)
Definition loggingHandler (fs : FileSystem) (r : Request) : list handlerEvent :=
  let fn := GoPath.Join ["."; URLPath r] in
  match fs fn with
  | Some stat =>
    (Println (RemoteAddr r ++ " " ++ Method r ++ " " ++ URLPath r)
     :: OsOpen fn
     :: match stat with
        | Some size => [Printf (fn ++ " [" ++ itoa size ++ "]")]
        | None => []
        end
     ++ [ServeHTTP r; FileClose fn])%list
  | None =>
    [Println (RemoteAddr r ++ " " ++ Method r ++ " " ++ URLPath r);
     OsOpen fn;
     ServeHTTP r]
  end.

End MainGo.


(* ================================================================== *)
(** * The version with the [-t] flag (automatic shutdown)              *)
(* ================================================================== *)

Module Part000.


(** [parsePrefixes] parses comma or space separated prefix values. *)
Definition parsePrefixes (input : string) : list string :=
  let parts := Fields (ReplaceAll input "," " ") in
  parts.

Definition builtinCIDRs : list string :=
  [ "127.0.0.0/8";    (* IPv4 loopback *)
    "10.0.0.0/8";     (* RFC1918 *)
    "172.16.0.0/12";  (* RFC1918 *)
    "192.168.0.0/16"; (* RFC1918 *)
    "169.254.0.0/16"; (* RFC3927 link-local *)
    "::1/128";        (* IPv6 loopback *)
    "fe80::/10";      (* IPv6 link-local *)
    "fc00::/7" ].     (* IPv6 unique local addr *)

(** The loop of [setupPrivateIPBlocks] over a list of CIDR texts;
    [privateIPBlocks] is the package variable it appends to. *)
Fixpoint setupLoop (cidrs : list string) (privateIPBlocks : list IPNet)
  : list IPNet + panicValue :=
  match cidrs with
  | [] => inl privateIPBlocks
  | cidr :: rest =>
    match ParseCIDR cidr with
    | inr err => inr (mkPanic cidr err)
    | inl (_, block) => setupLoop rest (privateIPBlocks ++ [block])%list
    end
  end.

Definition setupPrivateIPBlocks (privateIPBlocks : list IPNet)
  : list IPNet + panicValue :=
  setupLoop builtinCIDRs privateIPBlocks.

(** [init]: the package variable starts as [nil]. *)
Definition init : list IPNet + panicValue := setupPrivateIPBlocks [].

(** The package variable [privateIPBlocks] once [init] has run. *)
Definition privateIPBlocks : list IPNet :=
  match init with
  | inl blocks => blocks
  | inr _ => []
  end.

Fixpoint anyContains (blocks : list IPNet) (ip : IP) : bool :=
  match blocks with
  | [] => false
  | block :: rest => if Contains block ip then true else anyContains rest ip
  end.

Definition isPrivateIPIn (blocks : list IPNet) (ip : IP) : bool :=
  if IsLoopback ip || IsLinkLocalUnicast ip || IsLinkLocalMulticast ip then true
  else anyContains blocks ip.

Definition isPrivateIP (ip : IP) : bool := isPrivateIPIn privateIPBlocks ip.

Definition config : Config := mkConfig LevelM WHITE BLACK 1.

(** The local variables of [main] that the loops update. *)
Record locals : Type := mkLocals {
  qrGenerated : bool;
  fallbackIP : option IP;
  fallbackLink : string
}.

(** [for _, prefix := range prefixes]: the QR code for the first prefix
    that matches, then [break]. *)
Fixpoint prefixLoop (text link : string) (prefixes : list string) (st : locals)
  : locals * list event :=
  match prefixes with
  | [] => (st, [])
  | prefix :: rest =>
    if HasPrefix text prefix then
      (mkLocals true (fallbackIP st) (fallbackLink st),
       [GenerateWithConfig link config])
    else prefixLoop text link rest st
  end.

(** The body of [for _, addr := range addrs]. *)
Definition visitAddr (port : Z) (prefixes : list string) (st : locals) (addr : Addr)
  : locals * list event :=
  match addr with
  | AddrIPNet ipnet =>
    match To4 (netIP ipnet) with
    | Some _ =>
      let mark := if isPrivateIP (netIP ipnet) then "private" else "public" in
      let link := "http://" ++ IP_String (netIP ipnet) ++ ":" ++ itoa port in
      let '(st1, qr) := prefixLoop (IP_String (netIP ipnet)) link prefixes st in
      let st2 :=
        if negb (isPrivateIP (netIP ipnet))
           && match fallbackIP st1 with None => true | Some _ => false end
        then mkLocals (qrGenerated st1) (Some (netIP ipnet)) link
        else st1 in
      (st2, LogPrintf (link ++ " [" ++ mark ++ "]") :: qr)
    | None => (st, [])
    end
  | AddrOther _ _ => (st, [])
  end.

Fixpoint addrLoop (port : Z) (prefixes : list string) (addrs : list Addr) (st : locals)
  : locals * list event :=
  match addrs with
  | [] => (st, [])
  | addr :: rest =>
    let '(st1, tr1) := visitAddr port prefixes st addr in
    let '(st2, tr2) := addrLoop port prefixes rest st1 in
    (st2, (tr1 ++ tr2)%list)
  end.

(** Lines 104-143 of [main]: the prefixes are parsed, the addresses are
    visited, and the first public address is presented when no prefix
    matched. *)
Definition selection (port : Z) (qrPrefix : string) (addrs : list Addr)
  : list event :=
  let prefixes := parsePrefixes qrPrefix in
  let '(st, tr) := addrLoop port prefixes addrs (mkLocals false None "") in
  if negb (qrGenerated st)
     && match fallbackIP st with None => false | Some _ => true end
  then (tr ++ [GenerateWithConfig (fallbackLink st) config])%list
  else tr.

(** The errors of a [context.Context]. *)
Inductive ctxErr : Type := Canceled | DeadlineExceeded.

Definition ctxErrText (e : ctxErr) : string :=
  match e with
  | Canceled => "context canceled"
  | DeadlineExceeded => "context deadline exceeded"
  end.

(** The two [CancelFunc] values the variable [cancel] holds in turn: that
    of [ctx] (line 151) and, after the assignment of line 182, that of
    [shutdownCtx]. *)
Inductive cancelFunc : Type := CancelCtx | CancelShutdownCtx.

(** Where the goroutine of [main] is: blocked in [<-ctx.Done()] (line
    179) while the server runs, inside [srv.Shutdown(shutdownCtx)] (line
    186), returned, or ended by [log.Fatal] in the serving goroutine. *)
Inductive phase : Type := Serve | Stopping | Stopped | Failed.

Inductive timerState : Type := NoTimer | Armed | Fired.

(** The state shared by the goroutines of lines 145-191. *)
Record state : Type := mkState {
  pc : phase;
  cancel : cancelFunc;             (* the variable [cancel] *)
  ctxDone : bool;                  (* [ctx.Done()] is closed *)
  shutdownErr : option ctxErr;     (* [shutdownCtx.Err()], once it is made *)
  timer : timerState;              (* the timer of [time.AfterFunc] *)
  sigChan : nat;                   (* signals queued in [sigChan], capacity 1 *)
  sigWaiting : bool;               (* the goroutine of line 165 waits in [<-sigChan] *)
  active : nat;                    (* connections that are not idle *)
  output : list event              (* what has been logged, oldest first *)
}.

(** A call of the function held by [cancel].  Cancelling a context that
    is already done does nothing. *)
Definition callCancel (s : state) : state :=
  match cancel s with
  | CancelCtx =>
    mkState (pc s) (cancel s) true (shutdownErr s) (timer s)
            (sigChan s) (sigWaiting s) (active s) (output s)
  | CancelShutdownCtx =>
    match shutdownErr s with
    | None =>
      mkState (pc s) (cancel s) (ctxDone s) (Some Canceled) (timer s)
              (sigChan s) (sigWaiting s) (active s) (output s)
    | Some _ => s
    end
  end.

(** The atomic steps of the goroutines and of their environment. *)
Inductive label : Type :=
| TimerFires           (* the function given to [time.AfterFunc] runs *)
| SignalArrives        (* SIGINT or SIGTERM is delivered to the process *)
| SignalReceived       (* line 166-168: [<-sigChan], log, [cancel()] *)
| DoneObserved         (* line 179-186: [<-ctx.Done()] returns, [cancel] is
                          assigned, [srv.Shutdown] starts *)
| ConnOpens            (* a request starts *)
| ConnCloses           (* a request ends *)
| GraceExpires         (* the 5 s deadline of [shutdownCtx] passes *)
| ShutdownReturns      (* line 186-190: [srv.Shutdown] returns *)
| ListenFails (err : string).  (* line 173-174 *)

Definition newline : string := String (ascii_of_nat 10) EmptyString.

Definition step (l : label) (s : state) : option state :=
  match l with
  | TimerFires =>
    match timer s, pc s with
    | Armed, (Serve | Stopping) =>
      Some (callCancel (mkState (pc s) (cancel s) (ctxDone s) (shutdownErr s) Fired
                                (sigChan s) (sigWaiting s) (active s) (output s)))
    | _, _ => None
    end
  | SignalArrives =>
    match pc s with
    | Serve | Stopping =>
      (* [signal.Notify] does not block: a signal is dropped when the
         channel is full *)
      Some (mkState (pc s) (cancel s) (ctxDone s) (shutdownErr s) (timer s)
                    (if (sigChan s =? 0)%nat then 1%nat else sigChan s)
                    (sigWaiting s) (active s) (output s))
    | _ => None
    end
  | SignalReceived =>
    match pc s with
    | Serve | Stopping =>
      if sigWaiting s && negb (sigChan s =? 0)%nat then
        Some (callCancel
                (mkState (pc s) (cancel s) (ctxDone s) (shutdownErr s) (timer s)
                         (sigChan s - 1) false (active s)
                         (output s ++ [LogPrintf (newline ++ "Received interrupt signal, shutting down...")])%list))
      else None
    | _ => None
    end
  | DoneObserved =>
    match pc s with
    | Serve =>
      if ctxDone s then
        Some (mkState Stopping CancelShutdownCtx (ctxDone s) None (timer s)
                      (sigChan s) (sigWaiting s) (active s) (output s))
      else None
    | _ => None
    end
  | ConnOpens =>
    match pc s with
    | Serve =>
      Some (mkState (pc s) (cancel s) (ctxDone s) (shutdownErr s) (timer s)
                    (sigChan s) (sigWaiting s) (S (active s)) (output s))
    | _ => None
    end
  | ConnCloses =>
    match pc s, active s with
    | (Serve | Stopping), S n =>
      Some (mkState (pc s) (cancel s) (ctxDone s) (shutdownErr s) (timer s)
                    (sigChan s) (sigWaiting s) n (output s))
    | _, _ => None
    end
  | GraceExpires =>
    match pc s, shutdownErr s with
    | Stopping, None =>
      Some (mkState (pc s) (cancel s) (ctxDone s) (Some DeadlineExceeded) (timer s)
                    (sigChan s) (sigWaiting s) (active s) (output s))
    | _, _ => None
    end
  | ShutdownReturns =>
    match pc s with
    | Stopping =>
      match active s, shutdownErr s with
      | O, _ =>
        Some (mkState Stopped (cancel s) (ctxDone s) (shutdownErr s) (timer s)
                      (sigChan s) (sigWaiting s) (active s)
                      (output s ++ [LogPrintf "Server gracefully stopped"])%list)
      | S _, Some e =>
        Some (mkState Stopped (cancel s) (ctxDone s) (shutdownErr s) (timer s)
                      (sigChan s) (sigWaiting s) (active s)
                      (output s ++ [LogPrintf ("Server forced to shutdown: " ++ ctxErrText e)])%list)
      | S _, None => None
      end
    | _ => None
    end
  | ListenFails err =>
    match pc s with
    | Serve =>
      Some (mkState Failed (cancel s) (ctxDone s) (shutdownErr s) (timer s)
                    (sigChan s) (sigWaiting s) (active s)
                    (output s ++ [LogFatal err])%list)
    | _ => None
    end
  end.

(** A schedule: the steps taken, in order. *)
Fixpoint exec (ls : list label) (s : state) : option state :=
  match ls with
  | [] => Some s
  | l :: rest =>
    match step l s with
    | Some s' => exec rest s'
    | None => None
    end
  end.

(** The state when [main] reaches line 179: the timer is armed only for
    a positive [-t], the signal goroutine waits, the server listens. *)
Definition serving (timeout : Z) (tr : list event) : state :=
  mkState Serve CancelCtx false None
          (if (0 <? timeout)%Z then Armed else NoTimer)
          0 true 0 tr.

(** Line 156. *)
Definition shutdownNotice (timeout : Z) : event :=
  LogPrintfDuration "Server will shut down after %v" timeout.

(** [main], from its start to line 179; [timeout] is the value of the
    [-t] flag.  It ends in [log.Fatal] or with the concurrent part in its
    first state. *)
Definition main (env : Env) (timeout : Z) : list event * outcome + state :=
  let handle := HttpHandle "/" (directory env) in
  match InterfaceAddrs env with
  | inr err => inl ([handle; LogFatal err], Exited 1)
  | inl addrs =>
    let addr := ":" ++ itoa (port env) in
    let tr := (handle :: selection (port env) (qrPrefix env) addrs)%list in
    let tr := if (0 <? timeout)%Z then (tr ++ [shutdownNotice timeout])%list else tr in
    inr (serving timeout (tr ++ [ListenAndServe addr])%list)
  end.

(** The process: [init] runs before [main]. *)
Definition run (env : Env) (timeout : Z)
  : panicValue + (list event * outcome + state) :=
  match init with
  | inr p => inl p
  | inl _ => inr (main env timeout)
  end.

(** The default values of the flags [-p], [-d], [-q] and [-t]. *)
Definition defaultPort : Z := 3000.
Definition defaultDirectory : string := ".".
Definition defaultQrPrefix : string := "192".
Definition defaultTimeout : Z := 0.

(** [loggingHandler(h)] serving the request [r]: the request is logged,
    the file it names is opened for its name and size, and the request is
    handed to [h].  [file.Name()] is the name given to [os.Open]; the
    deferred [file.Close()] runs when the handler returns. *)
Definition loggingHandler (fs : FileSystem) (r : Request) : list handlerEvent :=
  let fn := GoPath.Join ["."; URLPath r] in
  match fs fn with
  | Some stat =>
    (Println (RemoteAddr r ++ " " ++ Method r ++ " " ++ URLPath r)
     :: OsOpen fn
     :: match stat with
        | Some size => [Printf (fn ++ " [" ++ itoa size ++ "]")]
        | None => []
        end
     ++ [ServeHTTP r; FileClose fn])%list
  | None =>
    [Println (RemoteAddr r ++ " " ++ Method r ++ " " ++ URLPath r);
     OsOpen fn;
     ServeHTTP r]
  end.

End Part000.

(* ================================================================== *)
(** * The two versions side by side, and the words of the specification *)
(* ================================================================== *)

Inductive version : Type := CmdWebshare | Timed.

Definition parsePrefixesOf (v : version) : string -> list string :=
  match v with
  | CmdWebshare => MainGo.parsePrefixes
  | Timed => Part000.parsePrefixes
  end.

Definition isPrivateIPOf (v : version) : IP -> bool :=
  match v with
  | CmdWebshare => MainGo.isPrivateIP
  | Timed => Part000.isPrivateIP
  end.

Definition initOf (v : version) : list IPNet + panicValue :=
  match v with
  | CmdWebshare => MainGo.init
  | Timed => Part000.init
  end.

Definition setupLoopOf (v : version)
  : list string -> list IPNet -> list IPNet + panicValue :=
  match v with
  | CmdWebshare => MainGo.setupLoop
  | Timed => Part000.setupLoop
  end.

Definition selectionOf (v : version) : Z -> string -> list Addr -> list event :=
  match v with
  | CmdWebshare => MainGo.selection
  | Timed => Part000.selection
  end.

(** The selection of a version for prefixes that are already parsed. *)
Definition selectWith (v : version) (port : Z) (prefixes : list string)
           (addrs : list Addr) : list event :=
  match v with
  | CmdWebshare =>
    let '(st, tr) := MainGo.addrLoop port prefixes addrs (MainGo.mkLocals false None "") in
    if negb (MainGo.qrGenerated st)
       && match MainGo.fallbackIP st with None => false | Some _ => true end
    then (tr ++ [GenerateWithConfig (MainGo.fallbackLink st) MainGo.config])%list
    else tr
  | Timed =>
    let '(st, tr) := Part000.addrLoop port prefixes addrs (Part000.mkLocals false None "") in
    if negb (Part000.qrGenerated st)
       && match Part000.fallbackIP st with None => false | Some _ => true end
    then (tr ++ [GenerateWithConfig (Part000.fallbackLink st) Part000.config])%list
    else tr
  end.

(** A delimiter of the prefix flag: a comma byte or a white space
    rune. *)
Definition isDelimiter (rb : N * string) : bool :=
  String.eqb (snd rb) "," || IsSpace (fst rb).

(** Splitting at every delimiter; [cur] is the piece being read.  Two
    delimiters in a row give an empty piece. *)
Fixpoint splitAtDelimiters (runes : list (N * string)) (cur : string) : list string :=
  match runes with
  | [] => [cur]
  | rb :: rest =>
    if isDelimiter rb then cur :: splitAtDelimiters rest EmptyString
    else splitAtDelimiters rest (cur ++ snd rb)
  end.

Definition nonEmpty (t : string) : bool := negb (String.eqb t EmptyString).

(** The prefix parser in the words of the specification: commas count as
    white space, the text is split at white space, and empty pieces are
    dropped. *)
Definition splitPrefixes (raw : string) : list string :=
  filter nonEmpty (splitAtDelimiters (rangeString raw) EmptyString).

(** The bytes of the runes of [raw] that are not delimiters, in order. *)
Definition keptBytes (raw : string) : string :=
  String.concat EmptyString
    (map snd (filter (fun rb => negb (isDelimiter rb)) (rangeString raw))).

(** Replacing every comma byte by a space. *)
Definition commaToSpace (c : ascii) : ascii :=
  if Ascii.eqb c "," then " "%char else c.

Fixpoint mapBytes (f : ascii -> ascii) (s : string) : string :=
  match s with
  | EmptyString => EmptyString
  | String c s' => String (f c) (mapBytes f s')
  end.

(** ** Notions used in the statements and proofs below *)

(** What [commaToSpace] does to the number of a byte, and to a rune with
    its bytes. *)
Definition spaced (b : N) : N := if (b =? 44)%N then 32%N else b.

Definition spacedRune (rb : N * string) : N * string :=
  if String.eqb (snd rb) "," then (32%N, " ") else rb.

Definition startText (start : option string) : string :=
  match start with
  | Some w => w
  | None => EmptyString
  end.

(** The candidate addresses of a list of interface addresses: the
    addresses of the [*net.IPNet] entries that have an IPv4 form, in the
    order of the list. *)
Fixpoint candidates (addrs : list Addr) : list IP :=
  match addrs with
  | [] => []
  | AddrIPNet ipnet :: rest =>
    match To4 (netIP ipnet) with
    | Some _ => netIP ipnet :: candidates rest
    | None => candidates rest
    end
  | AddrOther _ _ :: rest => candidates rest
  end.

(** The URL of a candidate, [http://<address>:<port>]. *)
Definition urlOf (port : Z) (ip : IP) : string :=
  "http://" ++ IP_String ip ++ ":" ++ itoa port.

(** Some pattern is a prefix of the text of the address. *)
Definition matchesAny (prefixes : list string) (ip : IP) : bool :=
  existsb (fun prefix => HasPrefix (IP_String ip) prefix) prefixes.

Definition isPublic (ip : IP) : bool := negb (MainGo.isPrivateIP ip).

(** The log line of a candidate. *)
Definition logLineOf (port : Z) (ip : IP) : string :=
  urlOf port ip ++ " [" ++ (if isPublic ip then "public" else "private") ++ "]".

(** The calls of the Presentation Sink the specification asks for: one
    for every candidate that matches a prefix, or else one for the first
    public candidate, or else none. *)
Definition expectedCalls (port : Z) (prefixes : list string) (addrs : list Addr)
  : list string :=
  match filter (matchesAny prefixes) (candidates addrs) with
  | [] =>
    match find isPublic (candidates addrs) with
    | Some ip => [urlOf port ip]
    | None => []
    end
  | matched => map (urlOf port) matched
  end.

(** The local variables of the second version read as those of the
    first. *)
Definition toMain (st : Part000.locals) : MainGo.locals :=
  MainGo.mkLocals (Part000.qrGenerated st) (Part000.fallbackIP st)
                  (Part000.fallbackLink st).

Definition isPublicOf (v : version) (ip : IP) : bool := negb (isPrivateIPOf v ip).

(** What the loop over the addresses emits, before the fallback. *)
Definition loopEventsOf (v : version) (port : Z) (prefixes : list string)
           (addrs : list Addr) : list event :=
  match v with
  | CmdWebshare =>
    snd (MainGo.addrLoop port prefixes addrs (MainGo.mkLocals false None ""))
  | Timed =>
    snd (Part000.addrLoop port prefixes addrs (Part000.mkLocals false None ""))
  end.

(** The variables [fallbackIP] and [fallbackLink] after the loop. *)
Definition trackedFallback (v : version) (port : Z) (prefixes : list string)
           (addrs : list Addr) : option IP * string :=
  match v with
  | CmdWebshare =>
    let st := fst (MainGo.addrLoop port prefixes addrs (MainGo.mkLocals false None "")) in
    (MainGo.fallbackIP st, MainGo.fallbackLink st)
  | Timed =>
    let st := fst (Part000.addrLoop port prefixes addrs (Part000.mkLocals false None "")) in
    (Part000.fallbackIP st, Part000.fallbackLink st)
  end.

(** An IPv4 address from four numbers, and an interface address with it
    in a /24 network. *)
Definition ip4 (a b c d : N) : IP := map byteOfN [a; b; c; d].

Definition lanAddr (a b c d : N) : Addr :=
  AddrIPNet (mkIPNet (ip4 a b c d) (ip4 255 255 255 0)).

(** The number an address stands for: its bytes in network order. *)
Definition ipValue (ip : list byte) : N :=
  fold_left (fun acc b => (acc * 256 + Byte.to_N b)%N) ip 0%N.

(** The block [base/ones] of addresses of [bits] bits: the addresses
    whose first [ones] bits are those of [base]. *)
Definition inBlock (base ones bits x : N) : Prop :=
  (base <= x < base + 2 ^ (bits - ones))%N.

(** The number of the IPv4 address [a.b.c.d]. *)
Definition dotted (a b c d : N) : N := (((a * 256 + b) * 256 + c) * 256 + d)%N.

(** The reserved IPv4 ranges of the specification. *)
Definition reserved4 (x : N) : Prop :=
  inBlock (dotted 127 0 0 0) 8 32 x          (* loopback *)
  \/ inBlock (dotted 10 0 0 0) 8 32 x        (* RFC1918 *)
  \/ inBlock (dotted 172 16 0 0) 12 32 x     (* RFC1918 *)
  \/ inBlock (dotted 192 168 0 0) 16 32 x    (* RFC1918 *)
  \/ inBlock (dotted 169 254 0 0) 16 32 x.   (* link-local *)

(** The reserved IPv6 ranges of the specification: [::1/128],
    [fe80::/10] and [fc00::/7]. *)
Definition reserved6 (x : N) : Prop :=
  inBlock 1 128 128 x
  \/ inBlock (65152 * 2 ^ 112) 10 128 x
  \/ inBlock (64512 * 2 ^ 112) 7 128 x.

Definition builtinCIDRsOf (v : version) : list string :=
  match v with
  | CmdWebshare => MainGo.builtinCIDRs
  | Timed => Part000.builtinCIDRs
  end.

(** The table the specification lists: eight ranges, in the order of the
    source. *)
Definition reservedTable : list IPNet :=
  [ mkIPNet (ip4 127 0 0 0) (ip4 255 0 0 0);
    mkIPNet (ip4 10 0 0 0) (ip4 255 0 0 0);
    mkIPNet (ip4 172 16 0 0) (ip4 255 240 0 0);
    mkIPNet (ip4 192 168 0 0) (ip4 255 255 0 0);
    mkIPNet (ip4 169 254 0 0) (ip4 255 255 0 0);
    mkIPNet (zeros 15 ++ [x01])%list (repeat xff 16);
    mkIPNet ([xfe; x80] ++ zeros 14)%list ([xff; xc0] ++ zeros 14)%list;
    mkIPNet ([xfc] ++ zeros 15)%list ([xfe] ++ zeros 15)%list ].

(** An entry of the table parses. *)
Definition parses (cidr : string) : Prop := exists r, ParseCIDR cidr = inl r.

(** A schedule in which the timer fires first and a signal arrives while
    a connection keeps the shutdown waiting, and the same schedule
    without the signal. *)
Definition timerThenSignal : list Part000.label :=
  [Part000.ConnOpens; Part000.TimerFires; Part000.DoneObserved;
   Part000.SignalArrives; Part000.SignalReceived].

Definition timerOnly : list Part000.label :=
  [Part000.ConnOpens; Part000.TimerFires; Part000.DoneObserved].

(** The other way round: the signal first, the timer during the grace
    period. *)
Definition signalThenTimer : list Part000.label :=
  [Part000.ConnOpens; Part000.SignalArrives; Part000.SignalReceived;
   Part000.DoneObserved; Part000.TimerFires].

(** One second, as a [time.Duration]. *)
Definition second : Z := 1000000000.

(* ================================================================== *)
(** * Notions for the further properties                               *)
(* ================================================================== *)

(** What the loop over the addresses emits for one candidate: its log
    line, then its QR code if a prefix matches. *)
Definition candidateEvents (port : Z) (prefixes : list string) (ip : IP)
  : list event :=
  LogPrintf (logLineOf port ip)
  :: (if matchesAny prefixes ip
      then [GenerateWithConfig (urlOf port ip) MainGo.config]
      else []).

(** The whole trace of the selection: the events of the candidates in
    order, then the QR code of the first public candidate when no
    candidate matched. *)
Definition expectedTrace (port : Z) (prefixes : list string) (addrs : list Addr)
  : list event :=
  (flat_map (candidateEvents port prefixes) (candidates addrs)
   ++ if existsb (matchesAny prefixes) (candidates addrs) then []
      else match find isPublic (candidates addrs) with
           | Some ip => [GenerateWithConfig (urlOf port ip) MainGo.config]
           | None => []
           end)%list.

(** The IPv4 addresses the classifier calls private, by their four
    numbers: loopback, the three RFC1918 blocks, link-local unicast and
    link-local multicast. *)
Definition private4 (a b c d : N) : bool :=
  ((a =? 127) || (a =? 10)
   || ((a =? 172) && (16 <=? b) && (b <=? 31))
   || ((a =? 192) && (b =? 168))
   || ((a =? 169) && (b =? 254))
   || ((a =? 224) && (b =? 0) && (c =? 0)))%N.

(** A comma or one of the six ASCII white space bytes. *)
Definition isDelimiterByte (c : ascii) : bool :=
  let b := N_of_ascii c in
  ((b =? 44) || ((9 <=? b) && (b <=? 13)) || (b =? 32))%N.

Fixpoint allBytes (P : ascii -> bool) (s : string) : bool :=
  match s with
  | EmptyString => true
  | String c s' => P c && allBytes P s'
  end.

(** A text that is one prefix pattern: not empty, with no comma and no
    white space in it. *)
Definition isToken (t : string) : bool :=
  nonEmpty t && forallb (fun rb => negb (isDelimiter rb)) (rangeString t).

(** A text does not begin with a continuation byte of UTF-8 (it may be
    empty). *)
Definition notContinuation (rest : string) : Prop :=
  outside 128 191 (byteAt 0 rest) = true.

(** The bytes of a list of runes, put together. *)
Definition bytesOf (runes : list (N * string)) : string :=
  String.concat EmptyString (map snd runes).

(** How often a step is taken in a schedule. *)
Definition isTimerFires (l : Part000.label) : bool :=
  match l with Part000.TimerFires => true | _ => false end.

Definition isSignalReceived (l : Part000.label) : bool :=
  match l with Part000.SignalReceived => true | _ => false end.

Definition timesTaken (which : Part000.label -> bool) (ls : list Part000.label) : nat :=
  List.length (filter which ls).


(** A state in the middle of a shutdown, two requests in flight. *)
Definition stoppingSample : Part000.state :=
  Part000.mkState Part000.Stopping Part000.CancelShutdownCtx true None
                  Part000.Fired 0 true 2 [].

(** The requests handed to the wrapped handler, the names given to
    [os.Open] and the names of the files closed, in a trace of a
    handler. *)
Fixpoint servedRequests (tr : list handlerEvent) : list Request :=
  match tr with
  | [] => []
  | ServeHTTP r :: rest => r :: servedRequests rest
  | _ :: rest => servedRequests rest
  end.

Fixpoint openedNames (tr : list handlerEvent) : list string :=
  match tr with
  | [] => []
  | OsOpen name :: rest => name :: openedNames rest
  | _ :: rest => openedNames rest
  end.

Fixpoint closedNames (tr : list handlerEvent) : list string :=
  match tr with
  | [] => []
  | FileClose name :: rest => name :: closedNames rest
  | _ :: rest => closedNames rest
  end.

(** A file name that is not empty and does not begin with a slash. *)
Definition relativeName (name : string) : bool :=
  match name with
  | EmptyString => false
  | String c _ => negb (Ascii.eqb c "/")
  end.

(** The buffer of [path.Clean], last byte first, does not begin with a
    slash. *)
Definition noLeadingSlash (out : list ascii) : Prop :=
  last out "."%char <> "/"%char.

(* ================================================================== *)
(** * The prefix parser                                                *)
(* ================================================================== *)

Lemma prefix_empty (s : string) : String.prefix EmptyString s = true.
Proof. now destruct s. Qed.

Lemma replaceScan_comma (s : string) :
  replaceScan "," " " 0 s = mapBytes commaToSpace s.
Proof.
  induction s as [|c s IH]; [reflexivity|].
  cbn [replaceScan mapBytes String.prefix String.length Nat.sub].
  rewrite prefix_empty, IH. unfold commaToSpace.
  destruct (ascii_dec "," c) as [<-|Hne]; [reflexivity|].
  destruct (Ascii.eqb_spec c ","); [congruence|reflexivity].
Qed.

Lemma ReplaceAll_comma (s : string) :
  ReplaceAll s "," " " = mapBytes commaToSpace s.
Proof. unfold ReplaceAll. cbn. apply replaceScan_comma. Qed.

Lemma N_of_ascii_comma (c : ascii) : N_of_ascii c = 44%N <-> c = ","%char.
Proof.
  split; [|now intros ->].
  intros H. rewrite <- (ascii_N_embedding c), H. reflexivity.
Qed.

Lemma N_of_commaToSpace (c : ascii) :
  N_of_ascii (commaToSpace c) = spaced (N_of_ascii c).
Proof.
  unfold commaToSpace, spaced.
  destruct (Ascii.eqb_spec c ",") as [->|Hne]; [reflexivity|].
  destruct (N.eqb_spec (N_of_ascii c) 44) as [E|_]; [|reflexivity].
  now apply N_of_ascii_comma in E.
Qed.

Lemma byteAt_mapBytes (s : string) (i : nat) :
  byteAt i (mapBytes commaToSpace s) = spaced (byteAt i s).
Proof.
  revert i; induction s as [|c s IH]; intros i; [reflexivity|].
  destruct i as [|i]; unfold byteAt in *; cbn.
  - apply N_of_commaToSpace.
  - apply IH.
Qed.

Lemma length_mapBytes (f : ascii -> ascii) (s : string) :
  String.length (mapBytes f s) = String.length s.
Proof. induction s; cbn; congruence. Qed.

Lemma takeBytes_mapBytes (f : ascii -> ascii) (n : nat) (s : string) :
  takeBytes n (mapBytes f s) = mapBytes f (takeBytes n s).
Proof.
  revert s; induction n as [|n IH]; intros [|c s]; cbn; try reflexivity.
  now rewrite IH.
Qed.

Lemma dropBytes_mapBytes (f : ascii -> ascii) (n : nat) (s : string) :
  dropBytes n (mapBytes f s) = mapBytes f (dropBytes n s).
Proof.
  revert s; induction n as [|n IH]; intros [|c s]; cbn; try reflexivity.
  apply IH.
Qed.

Lemma first_lead (b : N) (sz : nat) (lo hi : N) :
  first b = Lead sz lo hi -> (128 <= lo)%N /\ (128 <= b)%N /\ 2 <= sz <= 4.
Proof.
  unfold first.
  destruct (N.ltb_spec b 128); [discriminate|].
  repeat match goal with
         | |- context [if ?c then _ else _] => destruct c
         end;
    intros E; inversion E; subst; repeat split; try lia.
Qed.

Lemma outside_spaced (lo hi b : N) :
  (128 <= lo)%N -> outside lo hi (spaced b) = outside lo hi b.
Proof.
  intros Hlo. unfold spaced, outside.
  destruct (N.eqb_spec b 44) as [->|]; [|reflexivity].
  destruct (N.ltb_spec 32 lo), (N.ltb_spec 44 lo); try lia; reflexivity.
Qed.

Lemma inside_not_comma (lo hi b : N) :
  (128 <= lo)%N -> outside lo hi b = false -> spaced b = b /\ b <> 44%N.
Proof.
  intros Hlo. unfold spaced, outside.
  destruct (N.ltb_spec b lo); [discriminate|]. intros _.
  destruct (N.eqb_spec b 44); split; lia.
Qed.

(** A piece of a string without comma bytes is left alone. *)
Lemma mapBytes_no_comma (n : nat) (s : string) :
  (forall i, i < n -> byteAt i s <> 44%N) ->
  mapBytes commaToSpace (takeBytes n s) = takeBytes n s.
Proof.
  revert s; induction n as [|n IH]; intros [|c s] H; cbn; try reflexivity.
  f_equal.
  - unfold commaToSpace.
    destruct (Ascii.eqb_spec c ",") as [->|]; [|reflexivity].
    exfalso. apply (H 0); [lia|reflexivity].
  - apply IH. intros i Hi. apply (H (S i)). lia.
Qed.

Lemma takeBytes_not_comma (c : ascii) (s : string) (n : nat) :
  c <> ","%char -> String.eqb (takeBytes n (String c s)) "," = false.
Proof.
  intros Hc. destruct n as [|n]; [reflexivity|]. cbn.
  destruct (Ascii.eqb_spec c ","); [contradiction|reflexivity].
Qed.

(** Decoding the first rune of a string commutes with the replacement of
    commas: a comma byte is never part of a longer sequence. *)
Lemma decode_mapBytes (s : string) :
  let '(r, n) := DecodeRuneInString s in
  DecodeRuneInString (mapBytes commaToSpace s)
  = (fst (spacedRune (r, takeBytes n s)), n)
  /\ mapBytes commaToSpace (takeBytes n s) = snd (spacedRune (r, takeBytes n s)).
Proof.
  destruct s as [|c0 s']; [split; reflexivity|].
  destruct (Ascii.eqb_spec c0 ",") as [->|Hc0]; [split; reflexivity|].
  assert (Hb0 : N_of_ascii c0 <> 44%N) by (now rewrite N_of_ascii_comma).
  assert (Hf0 : commaToSpace c0 = c0).
  { unfold commaToSpace. now destruct (Ascii.eqb_spec c0 ","). }
  cbn [DecodeRuneInString mapBytes]. rewrite Hf0.
  unfold decodeFirst.
  replace (String c0 (mapBytes commaToSpace s'))
    with (mapBytes commaToSpace (String c0 s')) by (cbn [mapBytes]; now rewrite Hf0).
  set (s := String c0 s').
  assert (Hk : forall n r, spacedRune (r, takeBytes n s) = (r, takeBytes n s)).
  { intros n r. unfold spacedRune. cbn [snd]. subst s.
    now rewrite takeBytes_not_comma. }
  assert (H0 : byteAt 0 s <> 44%N) by exact Hb0.
  assert (Hone : mapBytes commaToSpace (takeBytes 1 s) = takeBytes 1 s).
  { apply mapBytes_no_comma. intros i Hi. now replace i with 0 by lia. }
  destruct (first (N_of_ascii c0)) as [| |sz lo hi] eqn:Hfirst.
  - rewrite Hk. now split.
  - rewrite Hk. now split.
  - apply first_lead in Hfirst as (Hlo & _ & Hsz).
    rewrite length_mapBytes, !byteAt_mapBytes.
    destruct (String.length s <? sz)%nat; [rewrite Hk; now split|].
    rewrite outside_spaced by assumption.
    destruct (outside lo hi (byteAt 1 s)) eqn:O1; [rewrite Hk; now split|].
    apply inside_not_comma in O1 as [E1 N1]; [|assumption]. rewrite E1.
    destruct (sz <=? 2)%nat.
    { rewrite Hk. split; [reflexivity|]. apply mapBytes_no_comma.
      intros i Hi. destruct i as [|[|i]]; [assumption..|lia]. }
    rewrite outside_spaced by lia.
    destruct (outside 128 191 (byteAt 2 s)) eqn:O2; [rewrite Hk; now split|].
    apply inside_not_comma in O2 as [E2 N2]; [|lia]. rewrite E2.
    destruct (sz <=? 3)%nat.
    { rewrite Hk. split; [reflexivity|]. apply mapBytes_no_comma.
      intros i Hi. destruct i as [|[|[|i]]]; [assumption..|lia]. }
    rewrite outside_spaced by lia.
    destruct (outside 128 191 (byteAt 3 s)) eqn:O3; [rewrite Hk; now split|].
    apply inside_not_comma in O3 as [E3 N3]; [|lia]. rewrite E3.
    rewrite Hk. split; [reflexivity|]. apply mapBytes_no_comma.
    intros i Hi. destruct i as [|[|[|[|i]]]]; [assumption..|lia].
Qed.

Lemma rangeFuel_mapBytes (fuel : nat) (s : string) :
  rangeFuel fuel (mapBytes commaToSpace s) = map spacedRune (rangeFuel fuel s).
Proof.
  revert s; induction fuel as [|fuel IH]; intros s; [reflexivity|].
  destruct s as [|c s']; [reflexivity|].
  cbn [rangeFuel mapBytes].
  change (String (commaToSpace c) (mapBytes commaToSpace s'))
    with (mapBytes commaToSpace (String c s')).
  pose proof (decode_mapBytes (String c s')) as H.
  destruct (DecodeRuneInString (String c s')) as [r n].
  destruct H as [H1 H2]. rewrite H1.
  cbn [map]. rewrite dropBytes_mapBytes, IH, takeBytes_mapBytes, H2.
  f_equal. now destruct (spacedRune (r, takeBytes n (String c s'))).
Qed.

Lemma rangeString_mapBytes (s : string) :
  rangeString (mapBytes commaToSpace s) = map spacedRune (rangeString s).
Proof. unfold rangeString. rewrite length_mapBytes. apply rangeFuel_mapBytes. Qed.

(** Every rune of a string comes with at least one byte. *)
Lemma decode_size_pos (c : ascii) (s : string) :
  1 <= snd (DecodeRuneInString (String c s)).
Proof.
  unfold DecodeRuneInString, decodeFirst.
  repeat match goal with
         | |- context [match ?x with _ => _ end] => destruct x
         end; cbn; lia.
Qed.

Lemma rangeFuel_nonempty (fuel : nat) (s : string) :
  Forall (fun rb => snd rb <> EmptyString) (rangeFuel fuel s).
Proof.
  revert s; induction fuel as [|fuel IH]; intros s; [constructor|].
  destruct s as [|c s']; [constructor|].
  cbn [rangeFuel].
  pose proof (decode_size_pos c s') as Hn.
  destruct (DecodeRuneInString (String c s')) as [r n]. cbn [snd] in Hn.
  constructor; [|apply IH].
  destruct n; [lia|]. discriminate.
Qed.

Lemma append_nonempty (a b : string) : b <> EmptyString -> (a ++ b) <> EmptyString.
Proof. destruct a, b; cbn; congruence. Qed.

(** The loop of [FieldsFunc] over the text with its commas replaced gives
    the non-empty pieces between delimiters of the text as it was. *)
Lemma fieldsLoop_split (runes : list (N * string)) (start : option string) :
  Forall (fun rb => snd rb <> EmptyString) runes ->
  (forall w, start = Some w -> w <> EmptyString) ->
  fieldsLoop IsSpace (map spacedRune runes) start
  = filter nonEmpty (splitAtDelimiters runes (startText start)).
Proof.
  intros Hne; revert start; induction Hne as [|[r b] runes Hb _ IH]; intros start Hs.
  - destruct start as [w|]; cbn; [|reflexivity].
    unfold nonEmpty. destruct (String.eqb_spec w EmptyString); [|reflexivity].
    now destruct (Hs w eq_refl).
  - cbn [map fieldsLoop splitAtDelimiters]. cbn [snd] in Hb.
    unfold isDelimiter, spacedRune. cbn [fst snd].
    destruct (String.eqb_spec b ",") as [->|Hcomma]; cbn [orb fst snd].
    + change (IsSpace 32) with true. cbn iota.
      destruct start as [w|]; cbn [startText filter].
      * rewrite IH by discriminate. unfold nonEmpty at 2.
        destruct (String.eqb_spec w EmptyString); [now destruct (Hs w eq_refl)|].
        reflexivity.
      * rewrite IH by discriminate. reflexivity.
    + destruct (IsSpace r).
      * destruct start as [w|]; cbn [startText filter].
        -- rewrite IH by discriminate. unfold nonEmpty at 2.
           destruct (String.eqb_spec w EmptyString); [now destruct (Hs w eq_refl)|].
           reflexivity.
        -- rewrite IH by discriminate. reflexivity.
      * destruct start as [w|]; cbn [startText].
        -- rewrite IH; [reflexivity|]. intros w' [= <-]. now apply append_nonempty.
        -- rewrite IH; [reflexivity|]. now intros w' [= <-].
Qed.

Lemma fields_replace_split (raw : string) :
  Fields (ReplaceAll raw "," " ") = splitPrefixes raw.
Proof.
  unfold Fields, FieldsFunc, splitPrefixes.
  rewrite ReplaceAll_comma, rangeString_mapBytes.
  now rewrite fieldsLoop_split; [|apply rangeFuel_nonempty|discriminate].
Qed.

Lemma string_app_nil_r (a : string) : a ++ EmptyString = a.
Proof. induction a; cbn; congruence. Qed.

Lemma string_app_assoc (a b c : string) : (a ++ b) ++ c = a ++ (b ++ c).
Proof. induction a; cbn; congruence. Qed.

Lemma concat_cons (x : string) (l : list string) :
  String.concat EmptyString (x :: l) = x ++ String.concat EmptyString l.
Proof. destruct l; cbn; [now rewrite string_app_nil_r|reflexivity]. Qed.

Lemma concat_filter_nonEmpty (l : list string) :
  String.concat EmptyString (filter nonEmpty l) = String.concat EmptyString l.
Proof.
  induction l as [|x l IH]; [reflexivity|].
  cbn [filter]. unfold nonEmpty at 1.
  destruct (String.eqb_spec x EmptyString) as [->|_]; cbn [negb].
  - now rewrite concat_cons.
  - now rewrite !concat_cons, IH.
Qed.

(** The pieces kept by the split, put together again, are the bytes that
    are not delimiters, in their order. *)
Lemma concat_split (runes : list (N * string)) (cur : string) :
  String.concat EmptyString (splitAtDelimiters runes cur)
  = cur ++ String.concat EmptyString
             (map snd (filter (fun rb => negb (isDelimiter rb)) runes)).
Proof.
  revert cur; induction runes as [|rb runes IH]; intros cur.
  - cbn. now rewrite string_app_nil_r.
  - cbn [splitAtDelimiters filter].
    destruct (isDelimiter rb); cbn [negb].
    + now rewrite concat_cons, IH.
    + cbn [map]. now rewrite IH, concat_cons, string_app_assoc.
Qed.

Lemma filter_nonEmpty_Forall (l : list string) :
  Forall (fun t => t <> EmptyString) (filter nonEmpty l).
Proof.
  apply Forall_forall. intros t Ht. apply filter_In in Ht as [_ Ht].
  unfold nonEmpty in Ht. now destruct (String.eqb_spec t EmptyString).
Qed.

(** C4: [parsePrefixes] is a total function that treats commas as white
    space, splits the text at every run of white space, drops the empty
    pieces and keeps the order of the input; it maps ["192,10 172"] to
    ["192"; "10"; "172"], the empty text to the empty list and
    ["  a ,, b"] to ["a"; "b"].  This holds for both versions. *)
Theorem parsePrefixes_splits (v : version) :
  (forall raw, parsePrefixesOf v raw = splitPrefixes raw)
  /\ (forall raw, Forall (fun t => t <> EmptyString) (parsePrefixesOf v raw))
  /\ (forall raw, String.concat EmptyString (parsePrefixesOf v raw) = keptBytes raw)
  /\ parsePrefixesOf v "192,10 172" = ["192"; "10"; "172"]
  /\ parsePrefixesOf v "" = []
  /\ parsePrefixesOf v "  a ,, b" = ["a"; "b"].
Proof.
  assert (H : forall raw, parsePrefixesOf v raw = splitPrefixes raw).
  { intros raw. destruct v; apply fields_replace_split. }
  split; [exact H|]. split; [|split].
  - intros raw. rewrite H. apply filter_nonEmpty_Forall.
  - intros raw. rewrite H. unfold splitPrefixes, keptBytes.
    now rewrite concat_filter_nonEmpty, concat_split.
  - destruct v; repeat split; reflexivity.
Qed.

(* ================================================================== *)
(** * The address selector                                             *)
(* ================================================================== *)

Lemma sinkCalls_app (t1 t2 : list event) :
  sinkCalls (t1 ++ t2)%list = (sinkCalls t1 ++ sinkCalls t2)%list.
Proof.
  induction t1 as [|e t1 IH]; [reflexivity|].
  destruct e; cbn; now rewrite IH.
Qed.

Lemma logLines_app (t1 t2 : list event) :
  logLines (t1 ++ t2)%list = (logLines t1 ++ logLines t2)%list.
Proof.
  induction t1 as [|e t1 IH]; [reflexivity|].
  destruct e; cbn; now rewrite IH.
Qed.

(** The inner loop: one call for the first pattern that matches, none
    when no pattern matches. *)
Lemma prefixLoop_spec (text link : string) (prefixes : list string)
      (st : MainGo.locals) :
  MainGo.prefixLoop text link prefixes st
  = if existsb (fun prefix => HasPrefix text prefix) prefixes
    then (MainGo.mkLocals true (MainGo.fallbackIP st) (MainGo.fallbackLink st),
          [GenerateWithConfig link MainGo.config])
    else (st, []).
Proof.
  induction prefixes as [|p ps IH]; [reflexivity|].
  cbn [MainGo.prefixLoop existsb].
  destruct (HasPrefix text p); [reflexivity|exact IH].
Qed.

(** The state after the loop over the addresses and what it emitted. *)
Lemma addrLoop_spec (port : Z) (prefixes : list string) (addrs : list Addr)
      (st : MainGo.locals) :
  let r := MainGo.addrLoop port prefixes addrs st in
  sinkCalls (snd r)
  = map (urlOf port) (filter (matchesAny prefixes) (candidates addrs))
  /\ logLines (snd r) = map (logLineOf port) (candidates addrs)
  /\ MainGo.qrGenerated (fst r)
     = MainGo.qrGenerated st || existsb (matchesAny prefixes) (candidates addrs)
  /\ (MainGo.fallbackIP (fst r), MainGo.fallbackLink (fst r))
     = match MainGo.fallbackIP st with
       | Some _ => (MainGo.fallbackIP st, MainGo.fallbackLink st)
       | None =>
         match find isPublic (candidates addrs) with
         | Some ip => (Some ip, urlOf port ip)
         | None => (None, MainGo.fallbackLink st)
         end
       end.
Proof.
  revert st; induction addrs as [|addr addrs IH]; intros st.
  - cbn. rewrite orb_false_r. repeat split. now destruct (MainGo.fallbackIP st).
  - cbn [MainGo.addrLoop].
    destruct addr as [ipnet|network text]; cbn [MainGo.visitAddr candidates].
    2:{ specialize (IH st). destruct (MainGo.addrLoop port prefixes addrs st).
        exact IH. }
    destruct (To4 (netIP ipnet)) as [p4|] eqn:H4.
    2:{ specialize (IH st). destruct (MainGo.addrLoop port prefixes addrs st).
        exact IH. }
    rewrite prefixLoop_spec.
    set (ip := netIP ipnet).
    fold (urlOf port ip). fold (matchesAny prefixes ip).
    cbn [filter existsb find]. unfold isPublic at 2.
    destruct (matchesAny prefixes ip) eqn:Hm;
      destruct (MainGo.isPrivateIP ip) eqn:Hp; cbn [negb andb];
      match goal with
      | |- context [MainGo.addrLoop port prefixes addrs ?s] =>
        specialize (IH s); destruct (MainGo.addrLoop port prefixes addrs s) as [st2 tr2]
      end;
      cbn [fst snd MainGo.qrGenerated MainGo.fallbackIP MainGo.fallbackLink] in *;
      destruct IH as (I1 & I2 & I3 & I4);
      destruct (MainGo.fallbackIP st) eqn:Hf;
      cbn [fst snd MainGo.qrGenerated MainGo.fallbackIP MainGo.fallbackLink
           sinkCalls logLines app map] in *;
      rewrite ?I1, ?I2, ?I3, ?I4, ?Hf, ?orb_true_r, ?orb_false_r;
      repeat split; try reflexivity.
    all: try (now destruct (MainGo.qrGenerated st)).
    all: f_equal; unfold logLineOf, isPublic; now rewrite Hp.
Qed.

(** ** The second version does what the first does *)

Lemma isPrivateIP_same (ip : IP) : Part000.isPrivateIP ip = MainGo.isPrivateIP ip.
Proof. reflexivity. Qed.

Lemma prefixLoop_sim (text link : string) (prefixes : list string)
      (st : Part000.locals) :
  toMain (fst (Part000.prefixLoop text link prefixes st))
  = fst (MainGo.prefixLoop text link prefixes (toMain st))
  /\ snd (Part000.prefixLoop text link prefixes st)
     = snd (MainGo.prefixLoop text link prefixes (toMain st)).
Proof.
  induction prefixes as [|p ps IH]; [split; reflexivity|].
  cbn [Part000.prefixLoop MainGo.prefixLoop].
  destruct (HasPrefix text p); [split; reflexivity|exact IH].
Qed.

Lemma visitAddr_sim (port : Z) (prefixes : list string) (st : Part000.locals)
      (addr : Addr) :
  toMain (fst (Part000.visitAddr port prefixes st addr))
  = fst (MainGo.visitAddr port prefixes (toMain st) addr)
  /\ snd (Part000.visitAddr port prefixes st addr)
     = snd (MainGo.visitAddr port prefixes (toMain st) addr).
Proof.
  destruct addr as [ipnet|network text]; [|split; reflexivity].
  cbn [Part000.visitAddr MainGo.visitAddr].
  destruct (To4 (netIP ipnet)); [|split; reflexivity].
  rewrite isPrivateIP_same.
  match goal with
  | |- context [Part000.prefixLoop ?t ?l prefixes st] =>
    destruct (prefixLoop_sim t l prefixes st) as [E1 E2];
    destruct (Part000.prefixLoop t l prefixes st) as [s2 q2];
    destruct (MainGo.prefixLoop t l prefixes (toMain st)) as [s1 q1]
  end.
  cbn [fst snd] in *. subst q2. rewrite <- E1.
  destruct s2 as [g [f|] l]; cbn;
    destruct (MainGo.isPrivateIP (netIP ipnet)); split; reflexivity.
Qed.

Lemma addrLoop_sim (port : Z) (prefixes : list string) (addrs : list Addr)
      (st : Part000.locals) :
  toMain (fst (Part000.addrLoop port prefixes addrs st))
  = fst (MainGo.addrLoop port prefixes addrs (toMain st))
  /\ snd (Part000.addrLoop port prefixes addrs st)
     = snd (MainGo.addrLoop port prefixes addrs (toMain st)).
Proof.
  revert st; induction addrs as [|addr addrs IH]; intros st; [split; reflexivity|].
  cbn [Part000.addrLoop MainGo.addrLoop].
  destruct (visitAddr_sim port prefixes st addr) as [E1 E2].
  destruct (Part000.visitAddr port prefixes st addr) as [s2 t2].
  destruct (MainGo.visitAddr port prefixes (toMain st) addr) as [s1 t1].
  cbn [fst snd] in *. subst s1 t2.
  destruct (IH s2) as [F1 F2].
  destruct (Part000.addrLoop port prefixes addrs s2) as [s2' t2'].
  destruct (MainGo.addrLoop port prefixes addrs (toMain s2)) as [s1' t1'].
  cbn [fst snd] in *. now subst.
Qed.

Lemma selectWith_same (port : Z) (prefixes : list string) (addrs : list Addr) :
  selectWith Timed port prefixes addrs = selectWith CmdWebshare port prefixes addrs.
Proof.
  unfold selectWith.
  destruct (addrLoop_sim port prefixes addrs (Part000.mkLocals false None ""))
    as [E1 E2].
  change (toMain (Part000.mkLocals false None ""))
    with (MainGo.mkLocals false None "") in *.
  destruct (Part000.addrLoop port prefixes addrs _) as [s2 t2].
  destruct (MainGo.addrLoop port prefixes addrs _) as [s1 t1].
  cbn [fst snd] in *. subst s1 t2. now destruct s2.
Qed.

Lemma selectionOf_selectWith (v : version) (port : Z) (raw : string)
      (addrs : list Addr) :
  selectionOf v port raw addrs = selectWith v port (parsePrefixesOf v raw) addrs.
Proof. destruct v; reflexivity. Qed.

Lemma selection_same (port : Z) (raw : string) (addrs : list Addr) :
  Part000.selection port raw addrs = MainGo.selection port raw addrs.
Proof.
  change (selectionOf Timed port raw addrs = selectionOf CmdWebshare port raw addrs).
  rewrite !selectionOf_selectWith. apply selectWith_same.
Qed.

Lemma existsb_filter {A : Type} (f : A -> bool) (l : list A) :
  existsb f l = match filter f l with [] => false | _ => true end.
Proof.
  induction l as [|x l IH]; [reflexivity|].
  cbn. destruct (f x); [reflexivity|exact IH].
Qed.

(** The calls of the Presentation Sink in a whole selection. *)
Lemma selectWith_calls (v : version) (port : Z) (prefixes : list string)
      (addrs : list Addr) :
  sinkCalls (selectWith v port prefixes addrs) = expectedCalls port prefixes addrs.
Proof.
  destruct v; [|rewrite selectWith_same].
  all: unfold selectWith, expectedCalls.
  all: pose proof (addrLoop_spec port prefixes addrs (MainGo.mkLocals false None ""))
    as (H1 & _ & H3 & H4).
  all: destruct (MainGo.addrLoop port prefixes addrs _) as [st tr].
  all: cbn [fst snd MainGo.qrGenerated MainGo.fallbackIP MainGo.fallbackLink orb] in *.
  all: rewrite existsb_filter in H3.
  all: destruct (filter (matchesAny prefixes) (candidates addrs)) as [|m ms];
    rewrite H3; cbn [negb andb]; [|exact H1].
  all: destruct (find isPublic (candidates addrs)); injection H4 as E1 E2;
    rewrite E1, ?E2; cbn [andb]; rewrite ?sinkCalls_app, H1; reflexivity.
Qed.

Lemma selectWith_logs (v : version) (port : Z) (prefixes : list string)
      (addrs : list Addr) :
  logLines (selectWith v port prefixes addrs)
  = map (logLineOf port) (candidates addrs).
Proof.
  destruct v; [|rewrite selectWith_same].
  all: unfold selectWith.
  all: pose proof (addrLoop_spec port prefixes addrs (MainGo.mkLocals false None ""))
    as (_ & H2 & _).
  all: destruct (MainGo.addrLoop port prefixes addrs _) as [st tr].
  all: cbn [snd] in H2.
  all: destruct (negb _ && _); rewrite ?logLines_app, H2; cbn [logLines];
    rewrite ?app_nil_r; reflexivity.
Qed.

Lemma isPublicOf_same (v : version) (ip : IP) : isPublicOf v ip = isPublic ip.
Proof. destruct v; reflexivity. Qed.

Lemma find_isPublicOf (v : version) (l : list IP) :
  find (isPublicOf v) l = find isPublic l.
Proof.
  induction l as [|x l IH]; [reflexivity|].
  cbn. now rewrite isPublicOf_same, IH.
Qed.

Lemma filter_length_le {A : Type} (f : A -> bool) (l : list A) :
  List.length (filter f l) <= List.length l.
Proof.
  induction l as [|x l IH]; [reflexivity|].
  cbn. destruct (f x); cbn; lia.
Qed.

Lemma find_some_length {A : Type} (f : A -> bool) (l : list A) (x : A) :
  find f l = Some x -> 1 <= List.length l.
Proof. destruct l; [discriminate|cbn; lia]. Qed.

(** C1, as the code has it: the Presentation Sink is called at most once
    for every candidate address, so at most as often as there are
    candidates; and it is called at most once in the whole run when at
    most one candidate matches a prefix. *)
Theorem sink_called_at_most_once_per_candidate
        (v : version) (port : Z) (raw : string) (addrs : list Addr) :
  List.length (sinkCalls (selectionOf v port raw addrs)) <= List.length (candidates addrs)
  /\ (List.length (filter (matchesAny (parsePrefixesOf v raw)) (candidates addrs)) <= 1 ->
      List.length (sinkCalls (selectionOf v port raw addrs)) <= 1).
Proof.
  rewrite selectionOf_selectWith, selectWith_calls. unfold expectedCalls.
  pose proof (filter_length_le (matchesAny (parsePrefixesOf v raw)) (candidates addrs)) as Hle.
  destruct (filter (matchesAny (parsePrefixesOf v raw)) (candidates addrs)) as [|m ms].
  - destruct (find isPublic (candidates addrs)) eqn:Hf; cbn; split; try lia.
    eapply find_some_length, Hf.
  - rewrite List.length_map. split; [exact Hle|tauto].
Qed.

Lemma sink_called_at_most_once_witness :
  List.length (sinkCalls (selectionOf CmdWebshare 3000 "10"
                                 [lanAddr 10 0 0 5; lanAddr 8 8 8 8])) <= 1.
Proof.
  apply (proj2 (sink_called_at_most_once_per_candidate
                  CmdWebshare 3000 "10" [lanAddr 10 0 0 5; lanAddr 8 8 8 8])).
  vm_compute. apply le_n.
Defined.

(** C1 as stated fails: two interface addresses that both match the
    prefix [192] give two calls of the Presentation Sink. *)
Lemma two_matching_candidates_two_calls :
  sinkCalls (selectionOf CmdWebshare 3000 "192"
                         [lanAddr 192 168 1 5; lanAddr 192 168 2 7])
  = ["http://192.168.1.5:3000"; "http://192.168.2.7:3000"]
  /\ ~ (forall (v : version) (port : Z) (raw : string) (addrs : list Addr),
           List.length (sinkCalls (selectionOf v port raw addrs)) <= 1).
Proof.
  split; [reflexivity|].
  intros H.
  specialize (H CmdWebshare 3000%Z "192" [lanAddr 192 168 1 5; lanAddr 192 168 2 7]).
  vm_compute in H. lia.
Qed.

Lemma existsb_app_first (f : string -> bool) (pre post : list string) (p : string) :
  (forall q, In q pre -> f q = false) -> f p = true ->
  existsb f (pre ++ p :: post)%list = true.
Proof.
  intros _ Hp. rewrite existsb_app. cbn. rewrite Hp. apply orb_true_r.
Qed.

Lemma loopEventsOf_same (port : Z) (prefixes : list string) (addrs : list Addr) :
  loopEventsOf Timed port prefixes addrs = loopEventsOf CmdWebshare port prefixes addrs.
Proof.
  unfold loopEventsOf.
  now destruct (addrLoop_sim port prefixes addrs (Part000.mkLocals false None "")).
Qed.

(** C2: for a candidate and a list of patterns whose first matching
    pattern is [p], the candidate is presented exactly once, with its own
    URL, and the patterns after [p] play no role; the loop over the
    addresses presents every candidate that matches some pattern, each
    with its own URL, in the order of enumeration. *)
Theorem first_matching_prefix_presents_candidate
        (port : Z) (ipnet : IPNet) (pre post : list string) (p : string) :
  To4 (netIP ipnet) <> None ->
  (forall q, In q pre -> HasPrefix (IP_String (netIP ipnet)) q = false) ->
  HasPrefix (IP_String (netIP ipnet)) p = true ->
  (forall st,
      sinkCalls (snd (MainGo.visitAddr port (pre ++ p :: post) st (AddrIPNet ipnet)))
      = [urlOf port (netIP ipnet)]
      /\ MainGo.qrGenerated
           (fst (MainGo.visitAddr port (pre ++ p :: post) st (AddrIPNet ipnet))) = true
      /\ MainGo.visitAddr port (pre ++ p :: post) st (AddrIPNet ipnet)
         = MainGo.visitAddr port (pre ++ [p]) st (AddrIPNet ipnet))
  /\ (forall st,
      sinkCalls (snd (Part000.visitAddr port (pre ++ p :: post) st (AddrIPNet ipnet)))
      = [urlOf port (netIP ipnet)]
      /\ Part000.qrGenerated
           (fst (Part000.visitAddr port (pre ++ p :: post) st (AddrIPNet ipnet))) = true
      /\ Part000.visitAddr port (pre ++ p :: post) st (AddrIPNet ipnet)
         = Part000.visitAddr port (pre ++ [p]) st (AddrIPNet ipnet))
  /\ (forall v prefixes addrs,
      sinkCalls (loopEventsOf v port prefixes addrs)
      = map (urlOf port) (filter (matchesAny prefixes) (candidates addrs))).
Proof.
  intros H4 Hpre Hp.
  assert (M : forall st,
      sinkCalls (snd (MainGo.visitAddr port (pre ++ p :: post) st (AddrIPNet ipnet)))
      = [urlOf port (netIP ipnet)]
      /\ MainGo.qrGenerated
           (fst (MainGo.visitAddr port (pre ++ p :: post) st (AddrIPNet ipnet))) = true
      /\ MainGo.visitAddr port (pre ++ p :: post) st (AddrIPNet ipnet)
         = MainGo.visitAddr port (pre ++ [p]) st (AddrIPNet ipnet)).
  { intros st. cbn [MainGo.visitAddr].
    destruct (To4 (netIP ipnet)); [|congruence].
    rewrite !prefixLoop_spec.
    rewrite (existsb_app_first (fun q => HasPrefix (IP_String (netIP ipnet)) q) pre post p Hpre Hp).
    rewrite (existsb_app_first (fun q => HasPrefix (IP_String (netIP ipnet)) q) pre [] p Hpre Hp).
    repeat split.
    destruct (negb (MainGo.isPrivateIP (netIP ipnet)) && _); reflexivity. }
  split; [exact M|]. split.
  - intros st.
    destruct (visitAddr_sim port (pre ++ p :: post) st (AddrIPNet ipnet)) as [E1 E2].
    destruct (M (toMain st)) as (M1 & M2 & _).
    rewrite E2, M1. split; [reflexivity|]. split.
    + rewrite <- E1 in M2. exact M2.
    + cbn [Part000.visitAddr].
      destruct (To4 (netIP ipnet)); [|congruence].
      assert (L : forall l, existsb (fun q => HasPrefix (IP_String (netIP ipnet)) q) l = true ->
                  forall link, Part000.prefixLoop (IP_String (netIP ipnet)) link l st
                  = (Part000.mkLocals true (Part000.fallbackIP st) (Part000.fallbackLink st),
                     [GenerateWithConfig link Part000.config])).
      { induction l as [|q l IH]; cbn; [discriminate|].
        intros Hex link. destruct (HasPrefix (IP_String (netIP ipnet)) q); [reflexivity|].
        now apply IH. }
      rewrite !L; [reflexivity| |].
      * apply (existsb_app_first (fun q => HasPrefix (IP_String (netIP ipnet)) q) pre [] p Hpre Hp).
      * apply (existsb_app_first (fun q => HasPrefix (IP_String (netIP ipnet)) q) pre post p Hpre Hp).
  - intros v prefixes addrs.
    destruct v; [|rewrite loopEventsOf_same].
    all: apply (addrLoop_spec port prefixes addrs (MainGo.mkLocals false None "")).
Qed.

Lemma first_matching_prefix_witness :
  sinkCalls (snd (MainGo.visitAddr 3000 (["10"; "192"] ++ "172" :: ["17"; "1"])
                                   (MainGo.mkLocals false None "")
                                   (lanAddr 172 16 0 9)))
  = ["http://172.16.0.9:3000"].
Proof.
  refine (proj1 (proj1 (first_matching_prefix_presents_candidate
                   3000 (mkIPNet (ip4 172 16 0 9) (ip4 255 255 255 0))
                   ["10"; "192"] ["17"; "1"] "172" _ _ _) _)).
  - discriminate.
  - intros q [<-|[<-|[]]]; reflexivity.
  - reflexivity.
Defined.

Lemma trackedFallback_spec (v : version) (port : Z) (prefixes : list string)
      (addrs : list Addr) :
  trackedFallback v port prefixes addrs
  = match find (isPublicOf v) (candidates addrs) with
    | Some ip => (Some ip, urlOf port ip)
    | None => (None, EmptyString)
    end.
Proof.
  rewrite find_isPublicOf.
  pose proof (addrLoop_spec port prefixes addrs (MainGo.mkLocals false None ""))
    as (_ & _ & _ & H4).
  destruct v; unfold trackedFallback; [exact H4|].
  destruct (addrLoop_sim port prefixes addrs (Part000.mkLocals false None ""))
    as [E1 _].
  change (toMain (Part000.mkLocals false None ""))
    with (MainGo.mkLocals false None "") in E1.
  rewrite <- E1 in H4. exact H4.
Qed.

(** C3: when no candidate matches a prefix, the Presentation Sink is
    called exactly once, with the URL of the first public candidate, if
    there is a public candidate, and not at all if there is none.  The
    first public candidate is tracked whatever the prefixes are.  For the
    candidate 8.8.8.8 and the prefix [192] the one call has the URL of
    8.8.8.8. *)
Theorem fallback_presents_first_public
        (v : version) (port : Z) (raw : string) (addrs : list Addr) :
  filter (matchesAny (parsePrefixesOf v raw)) (candidates addrs) = [] ->
  (forall ip, find (isPublicOf v) (candidates addrs) = Some ip ->
              sinkCalls (selectionOf v port raw addrs) = [urlOf port ip])
  /\ (find (isPublicOf v) (candidates addrs) = None ->
      sinkCalls (selectionOf v port raw addrs) = [])
  /\ (forall prefixes,
        trackedFallback v port prefixes addrs
        = match find (isPublicOf v) (candidates addrs) with
          | Some ip => (Some ip, urlOf port ip)
          | None => (None, EmptyString)
          end)
  /\ sinkCalls (selectionOf v 3000 "192" [lanAddr 8 8 8 8]) = ["http://8.8.8.8:3000"].
Proof.
  intros Hnone.
  assert (E : sinkCalls (selectionOf v port raw addrs)
              = match find (isPublicOf v) (candidates addrs) with
                | Some ip => [urlOf port ip]
                | None => []
                end).
  { rewrite selectionOf_selectWith, selectWith_calls, find_isPublicOf.
    unfold expectedCalls. now rewrite Hnone. }
  rewrite E.
  split; [|split; [|split]].
  - now intros ip ->.
  - now intros ->.
  - intros prefixes. apply trackedFallback_spec.
  - destruct v; reflexivity.
Qed.

Lemma fallback_presents_first_public_witness :
  sinkCalls (selectionOf Timed 8080 "192, 10" [lanAddr 172 16 3 4; lanAddr 1 2 3 4;
                                               lanAddr 8 8 8 8])
  = ["http://1.2.3.4:8080"].
Proof.
  refine (proj1 (fallback_presents_first_public
                   Timed 8080 "192, 10"
                   [lanAddr 172 16 3 4; lanAddr 1 2 3 4; lanAddr 8 8 8 8] _)
                (ip4 1 2 3 4) _); reflexivity.
Defined.

Lemma all_delimiters_split (runes : list (N * string)) :
  forallb isDelimiter runes = true ->
  filter nonEmpty (splitAtDelimiters runes EmptyString) = [].
Proof.
  induction runes as [|rb runes IH]; [reflexivity|].
  cbn [forallb splitAtDelimiters]. intros H.
  apply andb_true_iff in H as [H1 H2]. rewrite H1. cbn. now apply IH.
Qed.

Lemma find_some_iff {A : Type} (f : A -> bool) (l : list A) :
  (exists x, find f l = Some x) <-> (exists x, In x l /\ f x = true).
Proof.
  split.
  - intros [x H]. exists x. now apply find_some in H.
  - intros [x [Hin Hf]]. destruct (find f l) eqn:E; [now eexists|].
    now rewrite (find_none _ _ E x Hin) in Hf.
Qed.

(** C10: a prefix flag made of delimiters only parses to the empty list;
    and when the flag parses to the empty list, the Presentation Sink is
    called if and only if some candidate is public, and then exactly once
    with the URL of the first public candidate. *)
Theorem empty_prefix_list_presents_first_public (v : version) :
  (forall raw, forallb isDelimiter (rangeString raw) = true ->
               parsePrefixesOf v raw = [])
  /\ (forall raw port addrs,
        parsePrefixesOf v raw = [] ->
        filter (matchesAny (parsePrefixesOf v raw)) (candidates addrs) = []
        /\ sinkCalls (selectionOf v port raw addrs)
           = match find (isPublicOf v) (candidates addrs) with
             | Some ip => [urlOf port ip]
             | None => []
             end
        /\ (sinkCalls (selectionOf v port raw addrs) <> []
            <-> exists ip, In ip (candidates addrs) /\ isPublicOf v ip = true)).
Proof.
  split.
  - intros raw H.
    replace (parsePrefixesOf v raw) with (splitPrefixes raw)
      by (destruct v; symmetry; apply fields_replace_split).
    now apply all_delimiters_split.
  - intros raw port addrs Hempty.
    assert (F : filter (matchesAny (parsePrefixesOf v raw)) (candidates addrs) = []).
    { rewrite Hempty. induction (candidates addrs); [reflexivity|assumption]. }
    split; [exact F|].
    rewrite selectionOf_selectWith, selectWith_calls. unfold expectedCalls.
    rewrite F, <- (find_isPublicOf v). split; [reflexivity|].
    rewrite <- find_some_iff.
    destruct (find (isPublicOf v) (candidates addrs)) as [ip|].
    + split; [now exists ip|discriminate].
    + split; [congruence|now intros [x Hx]].
Qed.

Lemma empty_prefix_list_witness :
  sinkCalls (selectionOf CmdWebshare 3000 " ,, "
                         [lanAddr 192 168 1 5; lanAddr 8 8 8 8; lanAddr 9 9 9 9])
  = ["http://8.8.8.8:3000"].
Proof.
  refine (proj1 (proj2 (proj2 (empty_prefix_list_presents_first_public CmdWebshare)
                          " ,, " 3000%Z
                          [lanAddr 192 168 1 5; lanAddr 8 8 8 8; lanAddr 9 9 9 9] _))).
  apply (proj1 (empty_prefix_list_presents_first_public CmdWebshare)).
  reflexivity.
Defined.

(** C9: on every input, the selection phase of the two versions emits
    the same events: the same log lines and the same calls of the
    Presentation Sink with the same URLs, in the same order; and the two
    [main] functions agree up to the point where the server starts. *)
Theorem selection_phase_same_in_both_versions :
  (forall port raw addrs,
      MainGo.selection port raw addrs = Part000.selection port raw addrs
      /\ logLines (MainGo.selection port raw addrs)
         = logLines (Part000.selection port raw addrs)
      /\ sinkCalls (MainGo.selection port raw addrs)
         = sinkCalls (Part000.selection port raw addrs))
  /\ (forall env timeout,
        match MainGo.main env, Part000.main env timeout with
        | (tr1, Exited code), inl (tr2, out2) => tr1 = tr2 /\ out2 = Exited code
        | (tr1, Serving addr), inr st =>
          logLines (Part000.output st) = logLines tr1
          /\ sinkCalls (Part000.output st) = sinkCalls tr1
          /\ Part000.pc st = Part000.Serve
        | _, _ => False
        end).
Proof.
  split.
  - intros port raw addrs. now rewrite selection_same.
  - intros env timeout. unfold MainGo.main, Part000.main.
    destruct (InterfaceAddrs env) as [addrs|err]; [|split; reflexivity].
    rewrite selection_same. cbn [Part000.serving Part000.output Part000.pc].
    destruct (0 <? timeout)%Z;
      cbn [logLines sinkCalls];
      rewrite ?logLines_app, ?sinkCalls_app; cbn [logLines sinkCalls];
      rewrite ?logLines_app, ?sinkCalls_app; cbn [logLines sinkCalls];
      rewrite ?app_nil_r; repeat split.
Qed.

Lemma init_main : MainGo.init = inl MainGo.privateIPBlocks.
Proof. vm_compute. reflexivity. Qed.

Lemma init_part : Part000.init = inl Part000.privateIPBlocks.
Proof. vm_compute. reflexivity. Qed.

(** C7: when [net.InterfaceAddrs] fails, the process logs the error and
    exits with status 1 right after the handler is registered: nothing is
    selected, no QR code is made and the server is not started. *)
Theorem interface_enumeration_failure_is_fatal
        (env : Env) (err : string) (timeout : Z) :
  InterfaceAddrs env = inr err ->
  MainGo.run env
  = inr ([HttpHandle "/" (directory env); LogFatal err], Exited 1)
  /\ Part000.run env timeout
     = inr (inl ([HttpHandle "/" (directory env); LogFatal err], Exited 1)).
Proof.
  intros H. unfold MainGo.run, Part000.run.
  rewrite init_main, init_part. unfold MainGo.main, Part000.main.
  now rewrite H.
Qed.

Lemma interface_enumeration_failure_witness :
  MainGo.run (mkEnv 3000 "." "192" (inr "route ip+net: no such network interface"))
  = inr ([HttpHandle "/" ".";
          LogFatal "route ip+net: no such network interface"], Exited 1).
Proof.
  refine (proj1 (interface_enumeration_failure_is_fatal
                   (mkEnv 3000 "." "192" (inr "route ip+net: no such network interface"))
                   "route ip+net: no such network interface" 0 _)).
  reflexivity.
Defined.

(* ================================================================== *)
(** * The private-range classifier                                     *)
(* ================================================================== *)

Lemma privateIPBlocks_value : MainGo.privateIPBlocks = reservedTable.
Proof. vm_compute. reflexivity. Qed.

Lemma byte_of_value (b : byte) (n : N) :
  Byte.to_N b = n -> Byte.of_N n = Some b.
Proof. intros <-. apply Byte.of_to_N. Qed.

Lemma to_N_lt (b : byte) : (Byte.to_N b < 256)%N.
Proof. pose proof (Byte.to_N_bounded b). lia. Qed.

(** The masks of the table on the bytes they cut through. *)
Lemma land_240 (b : byte) :
  (16 <= Byte.to_N b < 32)%N -> N.land (Byte.to_N b) 240 = 16%N.
Proof. destruct b; cbn; intros H; try lia; reflexivity. Qed.

Lemma land_192 (b : byte) :
  (128 <= Byte.to_N b < 192)%N -> N.land (Byte.to_N b) 192 = 128%N.
Proof. destruct b; cbn; intros H; try lia; reflexivity. Qed.

Lemma land_254 (b : byte) :
  (252 <= Byte.to_N b < 254)%N -> N.land (Byte.to_N b) 254 = 252%N.
Proof. destruct b; cbn; intros H; try lia; reflexivity. Qed.

Ltac concrete_byte b n :=
  let E := fresh "E" in
  assert (E : Byte.of_N n = Some b) by (apply byte_of_value; lia);
  cbn in E; injection E as <-.

Ltac eval_pow :=
  repeat match goal with
         | |- context [(2 ^ ?k)%N] =>
           let v := eval vm_compute in (2 ^ k)%N in change (2 ^ k)%N with v
         end.

Ltac classify :=
  unfold MainGo.isPrivateIP, MainGo.isPrivateIPIn;
  rewrite privateIPBlocks_value; unfold reservedTable; cbn;
  rewrite ?N.land_0_r; reflexivity.

(** A 4-byte address in a reserved range, and its 16-byte form. *)
Lemma reserved4_private (a b c d : byte) :
  reserved4 (ipValue [a; b; c; d]) ->
  MainGo.isPrivateIP [a; b; c; d] = true
  /\ MainGo.isPrivateIP (IPv4 a b c d) = true.
Proof.
  unfold reserved4, inBlock, dotted, ipValue. cbn [fold_left]. eval_pow.
  pose proof (to_N_lt a); pose proof (to_N_lt b);
    pose proof (to_N_lt c); pose proof (to_N_lt d).
  intros [R|[R|[R|[R|R]]]].
  - concrete_byte a 127%N. split; classify.
  - concrete_byte a 10%N. split; classify.
  - concrete_byte a 172%N.
    assert (L : N.land (Byte.to_N b) 240 = 16%N) by (apply land_240; lia).
    split; unfold MainGo.isPrivateIP, MainGo.isPrivateIPIn;
      rewrite privateIPBlocks_value; unfold reservedTable; cbn; rewrite ?N.land_0_r, L; reflexivity.
  - concrete_byte a 192%N. concrete_byte b 168%N. split; classify.
  - concrete_byte a 169%N. concrete_byte b 254%N. split; classify.
Qed.

Lemma in_range_252 (b : byte) :
  (252 <= Byte.to_N b < 254)%N -> b = xfc \/ b = xfd.
Proof. destruct b; cbn; intros H; try lia; auto. Qed.

(** A 16-byte address in a reserved IPv6 range. *)
Lemma reserved6_private (ip : IP) :
  List.length ip = 16 -> reserved6 (ipValue ip) -> MainGo.isPrivateIP ip = true.
Proof.
  intros Hlen.
  do 16 (destruct ip as [|? ip]; [discriminate|]).
  destruct ip; [clear Hlen|discriminate].
  unfold reserved6, inBlock, ipValue. cbn [fold_left]. eval_pow.
  repeat match goal with
         | x : byte |- _ =>
           lazymatch goal with
           | _ : (Byte.to_N x < 256)%N |- _ => fail
           | _ => pose proof (to_N_lt x)
           end
         end.
  intros [R|[R|R]].
  - repeat match goal with
           | x : byte |- _ => first [concrete_byte x 0%N | concrete_byte x 1%N]
           end.
    vm_compute. reflexivity.
  - concrete_byte b 254%N.
    assert (L : N.land (Byte.to_N b0) 192 = 128%N) by (apply land_192; lia).
    unfold MainGo.isPrivateIP, MainGo.isPrivateIPIn. cbn -[N.land]. unfold at_; cbn [nth]. now rewrite L.
  - assert (B : b = xfc \/ b = xfd) by (apply in_range_252; lia).
    destruct B as [-> | ->]; classify.
Qed.

(** C5: every address of the loopback, RFC1918, link-local and
    unique-local ranges is private, in its 4-byte and in its 16-byte
    form; the public address 8.8.8.8 is not.  The classifier is a function
    of the address and of the fixed table only. *)
Theorem reserved_ranges_are_private (v : version) :
  (forall a b c d : byte,
      reserved4 (ipValue [a; b; c; d]) ->
      isPrivateIPOf v [a; b; c; d] = true
      /\ isPrivateIPOf v (IPv4 a b c d) = true)
  /\ (forall ip : IP,
        List.length ip = 16 -> reserved6 (ipValue ip) -> isPrivateIPOf v ip = true)
  /\ isPrivateIPOf v (ip4 8 8 8 8) = false
  /\ isPrivateIPOf v (IPv4 x08 x08 x08 x08) = false.
Proof.
  assert (E : forall ip, isPrivateIPOf v ip = MainGo.isPrivateIP ip)
    by (destruct v; reflexivity).
  split; [|split; [|split]].
  - intros a b c d H. rewrite !E. now apply reserved4_private.
  - intros ip Hlen H. rewrite E. now apply reserved6_private.
  - rewrite E. vm_compute. reflexivity.
  - rewrite E. vm_compute. reflexivity.
Qed.

Lemma reserved_ranges_witness :
  isPrivateIPOf CmdWebshare (ip4 172 31 255 254) = true
  /\ isPrivateIPOf Timed ([xfe; xbf] ++ repeat xff 14)%list = true.
Proof.
  split.
  - refine (proj1 (proj1 (reserved_ranges_are_private CmdWebshare)
                         xac x1f xff xfe _)).
    right; right; left. vm_compute. split; [discriminate|reflexivity].
  - refine (proj1 (proj2 (reserved_ranges_are_private Timed))
                  ([xfe; xbf] ++ repeat xff 14)%list _ _); [reflexivity|].
    right; left. vm_compute. split; [discriminate|reflexivity].
Defined.

(* ================================================================== *)
(** * The construction of the range table                              *)
(* ================================================================== *)

Lemma ParseCIDR_error (cidr err : string) :
  ParseCIDR cidr = inr err -> err = ("invalid CIDR address: " ++ cidr)%string.
Proof.
  unfold ParseCIDR.
  repeat match goal with
         | |- context [match ?x with _ => _ end] => destruct x
         end; congruence.
Qed.

Lemma setupLoop_panics (pre post : list string) (c err : string) (acc : list IPNet) :
  Forall parses pre -> ParseCIDR c = inr err ->
  MainGo.setupLoop (pre ++ c :: post) acc = inr (mkPanic c err)
  /\ Part000.setupLoop (pre ++ c :: post) acc = inr (mkPanic c err).
Proof.
  intros Hpre Hc. revert acc.
  induction Hpre as [|x pre [[ip blk] Hx] _ IH]; intros acc.
  - cbn. now rewrite Hc.
  - cbn. rewrite Hx. apply IH.
Qed.

Lemma setupLoop_full (cidrs : list string) (acc blocks : list IPNet) :
  (MainGo.setupLoop cidrs acc = inl blocks \/ Part000.setupLoop cidrs acc = inl blocks) ->
  exists added,
    blocks = (acc ++ added)%list
    /\ Forall2 (fun c blk => exists ip, ParseCIDR c = inl (ip, blk)) cidrs added.
Proof.
  revert acc; induction cidrs as [|c cidrs IH]; intros acc H.
  - exists []. cbn in H. rewrite app_nil_r.
    split; [destruct H; congruence|constructor].
  - cbn in H. destruct (ParseCIDR c) as [[ip blk]|err] eqn:Hc.
    + destruct (IH _ H) as (added & -> & F).
      exists (blk :: added). rewrite <- app_assoc. split; [reflexivity|].
      constructor; [now exists ip|exact F].
    + destruct H; discriminate.
Qed.

(** C6: the construction of the table panics with the entry that does
    not parse and the parse error as soon as it meets such an entry, and
    whenever it returns a table, the table holds one range for every
    entry; the eight entries of the source all parse, so [init] returns
    the table in full. *)
Theorem range_table_is_built_in_full_or_panics (v : version) :
  (forall pre post c err acc,
      Forall parses pre -> ParseCIDR c = inr err ->
      setupLoopOf v (pre ++ c :: post) acc = inr (mkPanic c err)
      /\ err = ("invalid CIDR address: " ++ c)%string)
  /\ (forall cidrs acc blocks,
        setupLoopOf v cidrs acc = inl blocks ->
        exists added,
          blocks = (acc ++ added)%list
          /\ Forall2 (fun c blk => exists ip, ParseCIDR c = inl (ip, blk)) cidrs added)
  /\ Forall parses (builtinCIDRsOf v)
  /\ List.length (builtinCIDRsOf v) = 8
  /\ initOf v = inl reservedTable.
Proof.
  split; [|split; [|split; [|split]]].
  - intros pre post c err acc Hpre Hc. split; [|now apply ParseCIDR_error].
    destruct v; now apply setupLoop_panics.
  - intros cidrs acc blocks H. apply setupLoop_full. destruct v; auto.
  - destruct v; repeat constructor; eexists; vm_compute; reflexivity.
  - destruct v; reflexivity.
  - destruct v; vm_compute; reflexivity.
Qed.

Lemma range_table_panic_witness :
  MainGo.setupLoop ["127.0.0.0/8"; "10.0.0.0/33"; "fc00::/7"] []
  = inr (mkPanic "10.0.0.0/33" "invalid CIDR address: 10.0.0.0/33").
Proof.
  refine (proj1 (proj1 (range_table_is_built_in_full_or_panics CmdWebshare)
                       ["127.0.0.0/8"] ["fc00::/7"] "10.0.0.0/33"
                       "invalid CIDR address: 10.0.0.0/33" [] _ _)).
  - repeat constructor. eexists. vm_compute. reflexivity.
  - vm_compute. reflexivity.
Defined.

(* ================================================================== *)
(** * Shutdown                                                         *)
(* ================================================================== *)

Import Part000.

(** Once [ctx] is done it stays done. *)
Lemma ctxDone_stays (l : label) (s s' : state) :
  step l s = Some s' -> ctxDone s = true -> ctxDone s' = true.
Proof.
  destruct l; unfold step, callCancel; cbn;
    repeat match goal with
           | |- context [match ?x with _ => _ end] => destruct x eqn:?
           end;
    intros [= <-]; cbn; auto.
Qed.

(** The phases are passed in one direction: no step leads back to
    [Serve]. *)
Lemma never_back_to_serve (l : label) (s s' : state) :
  step l s = Some s' -> pc s <> Serve -> pc s' <> Serve.
Proof.
  destruct l; unfold step, callCancel; cbn;
    repeat match goal with
           | |- context [match ?x with _ => _ end] => destruct x eqn:?
           end;
    intros [= <-]; cbn; congruence.
Qed.

Lemma exec_never_back_to_serve (ls : list label) (s s' : state) :
  exec ls s = Some s' -> pc s <> Serve -> pc s' <> Serve.
Proof.
  revert s; induction ls as [|l ls IH]; intros s; cbn.
  - now intros [= <-].
  - destruct (step l s) as [s1|] eqn:E; [|discriminate].
    intros H Hs. apply (IH s1 H). eapply never_back_to_serve; eauto.
Qed.

(** While [main] waits in line 179, the variable [cancel] holds the
    function of [ctx]: a second call of it changes nothing. *)
Lemma second_cancel_before_shutdown (s : state) :
  cancel s = CancelCtx -> ctxDone s = true -> callCancel s = s.
Proof. destruct s; cbn. now intros -> ->. Qed.

(** The first trigger closes [ctx.Done()], and [main] can go on to the
    shutdown. *)
Lemma first_trigger_stops (timeout : Z) (tr : list event) :
  (0 < timeout)%Z ->
  (exists s, step TimerFires (serving timeout tr) = Some s
             /\ ctxDone s = true
             /\ exists s', step DoneObserved s = Some s' /\ pc s' = Stopping)
  /\ (exists s, exec [SignalArrives; SignalReceived] (serving timeout tr) = Some s
                /\ ctxDone s = true
                /\ exists s', step DoneObserved s = Some s' /\ pc s' = Stopping).
Proof.
  intros H. apply Z.ltb_lt in H.
  split; unfold serving; rewrite H; cbn; eexists; repeat split; eexists; split; reflexivity.
Qed.

(** C8 fails on the code: with [-t 1s] and a request in flight, the
    timer fires and the shutdown starts; without a signal the shutdown
    context is untouched and [srv.Shutdown] keeps waiting, but a signal
    that arrives then calls the [cancel] of the shutdown context, and
    [srv.Shutdown] returns at once with [context canceled].  The same
    happens when the signal comes first and the timer fires during the
    grace period. *)
Theorem late_trigger_cancels_shutdown_context :
  (exists s, exec timerOnly (serving second []) = Some s
             /\ pc s = Stopping /\ shutdownErr s = None
             /\ step ShutdownReturns s = None)
  /\ (exists s s', exec timerThenSignal (serving second []) = Some s
                   /\ pc s = Stopping /\ shutdownErr s = Some Canceled
                   /\ step ShutdownReturns s = Some s'
                   /\ pc s' = Stopped
                   /\ output s'
                      = [LogPrintf (newline ++ "Received interrupt signal, shutting down...");
                         LogPrintf "Server forced to shutdown: context canceled"])
  /\ (exists s s', exec signalThenTimer (serving second []) = Some s
                   /\ pc s = Stopping /\ shutdownErr s = Some Canceled
                   /\ step ShutdownReturns s = Some s'
                   /\ output s'
                      = [LogPrintf (newline ++ "Received interrupt signal, shutting down...");
                         LogPrintf "Server forced to shutdown: context canceled"]).
Proof.
  split; [|split].
  - eexists. repeat split; reflexivity.
  - do 2 eexists. repeat split; reflexivity.
  - do 2 eexists. repeat split; reflexivity.
Qed.

(* ================================================================== *)
(** * Further properties of the selector                               *)
(* ================================================================== *)

Lemma addrLoop_trace (port : Z) (prefixes : list string) (addrs : list Addr)
      (st : MainGo.locals) :
  snd (MainGo.addrLoop port prefixes addrs st)
  = flat_map (candidateEvents port prefixes) (candidates addrs).
Proof.
  revert st; induction addrs as [|addr addrs IH]; intros st; [reflexivity|].
  cbn [MainGo.addrLoop].
  destruct addr as [ipnet|network text]; cbn [MainGo.visitAddr candidates].
  2:{ specialize (IH st). destruct (MainGo.addrLoop port prefixes addrs st).
      exact IH. }
  destruct (To4 (netIP ipnet)) as [p4|] eqn:H4.
  2:{ specialize (IH st). destruct (MainGo.addrLoop port prefixes addrs st).
      exact IH. }
  rewrite prefixLoop_spec. cbn [flat_map].
  unfold candidateEvents at 1.
  fold (urlOf port (netIP ipnet)). fold (matchesAny prefixes (netIP ipnet)).
  assert (L : (urlOf port (netIP ipnet) ++ " ["
               ++ (if MainGo.isPrivateIP (netIP ipnet) then "private" else "public")
               ++ "]")%string = logLineOf port (netIP ipnet)).
  { unfold logLineOf, isPublic. now destruct (MainGo.isPrivateIP (netIP ipnet)). }
  rewrite L.
  destruct (matchesAny prefixes (netIP ipnet));
    match goal with
    | |- context [MainGo.addrLoop port prefixes addrs ?s] =>
      specialize (IH s); destruct (MainGo.addrLoop port prefixes addrs s) as [st2 tr2]
    end; cbn [snd] in *; now rewrite IH.
Qed.

Lemma selection_is_expectedTrace
      (v : version) (port : Z) (raw : string) (addrs : list Addr) :
  selectionOf v port raw addrs = expectedTrace port (parsePrefixesOf v raw) addrs.
Proof.
  rewrite selectionOf_selectWith.
  destruct v; [|rewrite selectWith_same].
  all: unfold selectWith, expectedTrace.
  all: set (px := parsePrefixesOf _ raw).
  all: pose proof (addrLoop_spec port px addrs (MainGo.mkLocals false None ""))
    as (_ & _ & H3 & H4).
  all: pose proof (addrLoop_trace port px addrs (MainGo.mkLocals false None "")) as HT.
  all: destruct (MainGo.addrLoop port px addrs _) as [st tr].
  all: cbn [fst snd MainGo.qrGenerated MainGo.fallbackIP MainGo.fallbackLink orb] in *.
  all: rewrite H3, HT.
  all: destruct (existsb (matchesAny px) (candidates addrs)); cbn [negb andb];
    [now rewrite app_nil_r|].
  all: destruct (find isPublic (candidates addrs)); injection H4 as E1 E2;
    rewrite E1, ?E2; [reflexivity|now rewrite app_nil_r].
Qed.

(** X1: the trace of the selection phase, event by event: for every
    candidate in the order of enumeration its log line, followed by its
    QR code when a prefix matches it; then, when no candidate matched,
    the QR code of the first public candidate, if there is one. *)
Theorem selection_trace (v : version) (port : Z) (raw : string) (addrs : list Addr) :
  selectionOf v port raw addrs = expectedTrace port (parsePrefixesOf v raw) addrs.
Proof. apply selection_is_expectedTrace. Qed.

(** X2: the selection depends on the list of interface addresses only
    through its IPv4 candidates: entries that are not IP networks,
    addresses without an IPv4 form and the network masks play no role. *)
Theorem selection_ignores_other_addresses
        (v : version) (port : Z) (raw : string) (addrs addrs' : list Addr) :
  candidates addrs = candidates addrs' ->
  selectionOf v port raw addrs = selectionOf v port raw addrs'.
Proof.
  intros H. rewrite !selection_is_expectedTrace. unfold expectedTrace.
  now rewrite H.
Qed.

Lemma selection_ignores_other_addresses_witness :
  selectionOf Timed 3000 "192"
              [AddrOther "ip" "10.0.0.1";
               AddrIPNet (mkIPNet ([xfe; x80] ++ zeros 13 ++ [x01])%list
                                  (repeat xff 8 ++ zeros 8)%list);
               AddrIPNet (mkIPNet (ip4 192 168 1 5) (ip4 255 255 0 0))]
  = selectionOf Timed 3000 "192" [lanAddr 192 168 1 5].
Proof.
  apply selection_ignores_other_addresses. reflexivity.
Defined.

(** X3: the Presentation Sink only ever gets the URL of a candidate that
    matches a prefix or is public. *)
Theorem presented_url_is_matching_or_public
        (v : version) (port : Z) (raw : string) (addrs : list Addr) (url : string) :
  In url (sinkCalls (selectionOf v port raw addrs)) ->
  exists ip, In ip (candidates addrs)
             /\ url = urlOf port ip
             /\ (matchesAny (parsePrefixesOf v raw) ip = true
                 \/ isPublicOf v ip = true).
Proof.
  rewrite selectionOf_selectWith, selectWith_calls. unfold expectedCalls.
  set (px := parsePrefixesOf v raw).
  destruct (filter (matchesAny px) (candidates addrs)) as [|m ms] eqn:F.
  - destruct (find isPublic (candidates addrs)) as [ip|] eqn:E; [|intros []].
    intros [<-|[]]. apply find_some in E as [Hin Hp].
    exists ip. rewrite isPublicOf_same. auto.
  - rewrite <- F. intros H. apply in_map_iff in H as (ip & <- & Hin).
    apply filter_In in Hin as [Hin Hm]. exists ip. auto.
Qed.

Lemma presented_url_witness :
  exists ip, In ip (candidates [lanAddr 10 0 0 5; lanAddr 8 8 8 8])
             /\ "http://8.8.8.8:3000"%string = urlOf 3000 ip
             /\ (matchesAny (parsePrefixesOf CmdWebshare "192") ip = true
                 \/ isPublicOf CmdWebshare ip = true).
Proof.
  apply (presented_url_is_matching_or_public
           CmdWebshare 3000 "192" [lanAddr 10 0 0 5; lanAddr 8 8 8 8]).
  vm_compute. auto.
Defined.

(* ================================================================== *)
(** * Further properties of the classifier                             *)
(* ================================================================== *)

Lemma land_255 (b : byte) : N.land (Byte.to_N b) 255 = Byte.to_N b.
Proof. destruct b; reflexivity. Qed.

Lemma land_240_test (b : byte) :
  (16 =? N.land (Byte.to_N b) 240)%N
  = ((16 <=? Byte.to_N b) && (Byte.to_N b <=? 31))%N.
Proof. destruct b; reflexivity. Qed.

Lemma Contains_v6_blocks_v4 (a b c d : byte) :
  Contains (mkIPNet (zeros 15 ++ [x01])%list (repeat xff 16)) [a; b; c; d] = false
  /\ Contains (mkIPNet ([xfe; x80] ++ zeros 14)%list ([xff; xc0] ++ zeros 14)%list) [a; b; c; d] = false
  /\ Contains (mkIPNet ([xfc] ++ zeros 15)%list ([xfe] ++ zeros 15)%list) [a; b; c; d] = false.
Proof. repeat split. Qed.

Ltac eval_land :=
  repeat match goal with
         | |- context [N.land ?x ?y] =>
           lazymatch x with
           | context [Byte.to_N _] => fail
           | _ => let v := eval vm_compute in (N.land x y) in
                  change (N.land x y) with v
           end
         end.

Ltac split_eqb :=
  repeat match goal with
         | |- context [(?x =? ?y)%N] =>
           destruct (N.eqb_spec x y); [subst|]; cbn [andb orb negb]
         end.

Lemma private4_formula (A B C D : N) :
  (if (A =? 127)%N || (A =? 169)%N && (B =? 254)%N
      || (A =? 224)%N && (B =? 0)%N && (C =? 0)%N
   then true
   else if (127 =? A)%N && true then true
   else if (10 =? A)%N && true then true
   else if (172 =? A)%N && ((16 <=? B)%N && (B <=? 31)%N && true) then true
   else if (192 =? A)%N && ((168 =? B)%N && true) then true
   else if (169 =? A)%N && ((254 =? B)%N && true) then true
   else false)
  = private4 A B C D.
Proof.
  unfold private4.
  rewrite (N.eqb_sym 127 A), (N.eqb_sym 10 A), (N.eqb_sym 172 A),
    (N.eqb_sym 192 A), (N.eqb_sym 169 A), (N.eqb_sym 168 B), (N.eqb_sym 254 B).
  destruct (N.eqb_spec A 127) as [->|N1]; [reflexivity|].
  destruct (N.eqb_spec A 10) as [->|N2]; [reflexivity|].
  destruct (N.eqb_spec A 172) as [->|N3];
    [cbn; now destruct (16 <=? B)%N, (B <=? 31)%N|].
  destruct (N.eqb_spec A 192) as [->|N4]; [cbn; now destruct (B =? 168)%N|].
  destruct (N.eqb_spec A 169) as [->|N5]; [cbn; now destruct (B =? 254)%N|].
  destruct (N.eqb_spec A 224) as [->|N6];
    [cbn; now destruct (B =? 0)%N, (C =? 0)%N|].
  reflexivity.
Qed.

Lemma isPrivateIP_4 (a b c d : byte) :
  MainGo.isPrivateIP [a; b; c; d]
  = private4 (Byte.to_N a) (Byte.to_N b) (Byte.to_N c) (Byte.to_N d).
Proof.
  unfold MainGo.isPrivateIP, MainGo.isPrivateIPIn.
  rewrite privateIPBlocks_value. unfold reservedTable.
  cbn -[N.land N.eqb].
  repeat match goal with
         | |- context [Contains ?blk [a; b; c; d]] =>
           change (Contains blk [a; b; c; d]) with false
         end.
  rewrite ?N.land_0_r, ?land_255. eval_land. rewrite land_240_test.
  change (0 =? 0)%N with true. cbn [andb]. unfold at_. cbn [nth].
  apply private4_formula.
Qed.

Lemma To4_length (ip p4 : IP) : To4 ip = Some p4 -> List.length p4 = 4.
Proof.
  unfold To4.
  destruct (Nat.eqb_spec (List.length ip) IPv4len) as [E|_].
  - now intros [= <-].
  - destruct (Nat.eqb_spec (List.length ip) IPv6len) as [E|_]; [|discriminate].
    cbn [andb].
    destruct (isZeros (firstn 10 ip) && (at_ ip 10 =? 255)%N && (at_ ip 11 =? 255)%N);
      [|discriminate].
    intros [= <-]. change (List.length (firstn 4 (skipn 12 ip)) = 4).
    rewrite length_firstn, length_skipn, E. reflexivity.
Qed.

Lemma To4_idempotent (ip p4 : IP) : To4 ip = Some p4 -> To4 p4 = Some p4.
Proof. intros H. apply To4_length in H. unfold To4. now rewrite H. Qed.

(** The classifier looks at an address through its IPv4 form when it has
    one. *)
Lemma isPrivateIPIn_To4 (blocks : list IPNet) (ip p4 : IP) :
  To4 ip = Some p4 ->
  MainGo.isPrivateIPIn blocks ip = MainGo.isPrivateIPIn blocks p4.
Proof.
  intros H. pose proof (To4_idempotent _ _ H) as H'.
  unfold MainGo.isPrivateIPIn, IsLoopback, IsLinkLocalUnicast, IsLinkLocalMulticast.
  rewrite H, H'.
  replace (MainGo.anyContains blocks ip) with (MainGo.anyContains blocks p4);
    [reflexivity|].
  induction blocks as [|blk blocks IH]; [reflexivity|].
  cbn [MainGo.anyContains]. rewrite IH. unfold Contains. now rewrite H, H'.
Qed.

(** X4: an address with an IPv4 form [a.b.c.d] is private exactly when
    it is in 127/8, 10/8, 172.16/12, 192.168/16, 169.254/16 or
    224.0.0/24, whether it is held in 4 or in 16 bytes. *)
Theorem ipv4_classification (v : version) (ip : IP) (a b c d : byte) :
  To4 ip = Some [a; b; c; d] ->
  isPrivateIPOf v ip
  = private4 (Byte.to_N a) (Byte.to_N b) (Byte.to_N c) (Byte.to_N d).
Proof.
  intros H.
  replace (isPrivateIPOf v ip) with (MainGo.isPrivateIP ip) by (now destruct v).
  unfold MainGo.isPrivateIP. rewrite (isPrivateIPIn_To4 _ _ _ H).
  apply isPrivateIP_4.
Qed.

Lemma ipv4_classification_witness :
  isPrivateIPOf Timed (IPv4 xac x20 x00 x01) = false
  /\ isPrivateIPOf Timed (ip4 224 0 0 251) = true.
Proof.
  split.
  - apply (ipv4_classification Timed (IPv4 xac x20 x00 x01) xac x20 x00 x01).
    reflexivity.
  - apply (ipv4_classification Timed (ip4 224 0 0 251) xe0 x00 x00 xfb).
    reflexivity.
Defined.

Lemma anyContains_existsb (blocks : list IPNet) (ip : IP) :
  MainGo.anyContains blocks ip = existsb (fun blk => Contains blk ip) blocks.
Proof.
  induction blocks as [|blk blocks IH]; [reflexivity|].
  cbn. rewrite IH. now destruct (Contains blk ip).
Qed.

Lemma existsb_Permutation {A : Type} (f : A -> bool) (l l' : list A) :
  Permutation l l' -> existsb f l = existsb f l'.
Proof.
  induction 1 as [|x l l' _ IH|x y l|l l' l'' _ IH1 _ IH2]; cbn.
  - reflexivity.
  - now rewrite IH.
  - now destruct (f x), (f y).
  - congruence.
Qed.

(** X5: the order of the table does not matter: two tables with the
    same ranges in any order, also with repetitions kept, classify every
    address alike. *)
Theorem table_order_is_irrelevant (blocks blocks' : list IPNet) (ip : IP) :
  Permutation blocks blocks' ->
  MainGo.isPrivateIPIn blocks ip = MainGo.isPrivateIPIn blocks' ip
  /\ Part000.isPrivateIPIn blocks ip = Part000.isPrivateIPIn blocks' ip.
Proof.
  intros H.
  assert (E : MainGo.isPrivateIPIn blocks ip = MainGo.isPrivateIPIn blocks' ip).
  { unfold MainGo.isPrivateIPIn.
    now rewrite !anyContains_existsb, (existsb_Permutation _ _ _ H). }
  split; [exact E|exact E].
Qed.

Lemma table_order_witness :
  MainGo.isPrivateIPIn reservedTable (ip4 192 168 7 7)
  = MainGo.isPrivateIPIn (rev reservedTable) (ip4 192 168 7 7).
Proof.
  apply (proj1 (table_order_is_irrelevant reservedTable (rev reservedTable)
                                          (ip4 192 168 7 7)
                                          (Permutation_rev reservedTable))).
Defined.

Lemma IP_String_To4 (ip : IP) (a b c d : byte) :
  To4 ip = Some [a; b; c; d] ->
  IP_String ip
  = (ubtoa a ++ "." ++ ubtoa b ++ "." ++ ubtoa c ++ "." ++ ubtoa d)%string.
Proof.
  intros H. unfold IP_String. rewrite H.
  destruct ip; [discriminate|reflexivity].
Qed.

Lemma first_octet_192 (a : byte) (rest : string) :
  HasPrefix (ubtoa a ++ "." ++ rest) "192" = (Byte.to_N a =? 192)%N.
Proof. destruct a; reflexivity. Qed.

(** X6: with the default value of the [-q] flag, a candidate matches
    exactly when its first number is 192, whatever the other three
    are. *)
Theorem default_prefix_matches_first_octet_192
        (v : version) (ip : IP) (a b c d : byte) :
  To4 ip = Some [a; b; c; d] ->
  matchesAny (parsePrefixesOf v MainGo.defaultQrPrefix) ip = (Byte.to_N a =? 192)%N
  /\ matchesAny (parsePrefixesOf v Part000.defaultQrPrefix) ip = (Byte.to_N a =? 192)%N.
Proof.
  intros H.
  assert (E : matchesAny ["192"] ip = (Byte.to_N a =? 192)%N).
  { unfold matchesAny. cbn [existsb]. rewrite (IP_String_To4 _ _ _ _ _ H).
    rewrite first_octet_192. apply orb_false_r. }
  destruct v; split; exact E.
Qed.

Lemma default_prefix_witness :
  matchesAny (parsePrefixesOf CmdWebshare MainGo.defaultQrPrefix) (ip4 192 0 2 1) = true.
Proof.
  apply (proj1 (default_prefix_matches_first_octet_192
                  CmdWebshare (ip4 192 0 2 1) xc0 x00 x02 x01 eq_refl)).
Defined.

(* ================================================================== *)
(** * Further properties of the prefix parser                          *)
(* ================================================================== *)

Lemma first_lead_hi (b : N) (sz : nat) (lo hi : N) :
  first b = Lead sz lo hi -> (hi <= 191)%N /\ (sz = 2 \/ sz = 3 \/ sz = 4).
Proof.
  unfold first.
  repeat match goal with
         | |- context [if ?c then _ else _] => destruct c
         end;
    intros E; inversion E; subst; split; try lia; auto.
Qed.

Lemma outside_narrow (lo hi b : N) :
  (128 <= lo)%N -> (hi <= 191)%N ->
  outside 128 191 b = true -> outside lo hi b = true.
Proof.
  unfold outside. intros Hlo Hhi H.
  apply orb_true_iff in H. apply orb_true_iff.
  destruct H as [H|H]; [left|right]; apply N.ltb_lt in H; apply N.ltb_lt; lia.
Qed.

Lemma byteAt_S (i : nat) (c : ascii) (s : string) :
  byteAt (S i) (String c s) = byteAt i s.
Proof. reflexivity. Qed.

Lemma byteAt_0 (c : ascii) (s : string) : byteAt 0 (String c s) = N_of_ascii c.
Proof. reflexivity. Qed.

Ltac case_if :=
  match goal with
  | |- context [if ?c then _ else _] => destruct c
  end.

(** The first rune of a text does not depend on what follows the text,
    as long as that does not begin with a continuation byte. *)
Lemma decode_app (t rest : string) :
  t <> EmptyString -> notContinuation rest ->
  DecodeRuneInString (t ++ rest) = DecodeRuneInString t.
Proof.
  intros Ht Hrest. destruct t as [|c0 t']; [congruence|]. clear Ht.
  cbn [append DecodeRuneInString]. unfold decodeFirst.
  destruct (first (N_of_ascii c0)) as [| |sz lo hi] eqn:Hfirst; try reflexivity.
  pose proof (first_lead _ _ _ _ Hfirst) as (Hlo & _ & _).
  pose proof (first_lead_hi _ _ _ _ Hfirst) as (Hhi & Hsz).
  pose proof (outside_narrow lo hi _ Hlo Hhi Hrest) as Hrest'.
  unfold notContinuation in Hrest.
  assert (Hlen : forall k c s, (String.length (String c s) <? S k)%nat
                               = (String.length s <? k)%nat) by reflexivity.
  destruct t' as [|c1 t'].
  { cbn [append]. rewrite !byteAt_S, Hrest'.
    destruct Hsz as [-> | [-> | ->]]; rewrite !Hlen;
      cbn [String.length Nat.ltb Nat.leb]; repeat case_if; reflexivity. }
  destruct t' as [|c2 t'].
  { cbn [append]. rewrite !byteAt_S, !byteAt_0, Hrest.
    destruct Hsz as [-> | [-> | ->]]; rewrite !Hlen;
      cbn [String.length Nat.ltb Nat.leb];
      destruct (outside lo hi (N_of_ascii c1)); try reflexivity;
      repeat case_if; reflexivity. }
  destruct t' as [|c3 t'].
  { cbn [append]. rewrite !byteAt_S, !byteAt_0, Hrest.
    destruct Hsz as [-> | [-> | ->]]; rewrite !Hlen;
      cbn [String.length Nat.ltb Nat.leb];
      destruct (outside lo hi (N_of_ascii c1)); try reflexivity;
      destruct (outside 128 191 (N_of_ascii c2)); try reflexivity;
      repeat case_if; reflexivity. }
  cbn [append]. rewrite !byteAt_S, !byteAt_0.
  destruct Hsz as [-> | [-> | ->]]; reflexivity.
Qed.

Lemma decode_size_le (s : string) :
  snd (DecodeRuneInString s) <= String.length s.
Proof.
  destruct s as [|c0 s']; [reflexivity|].
  cbn [DecodeRuneInString]. unfold decodeFirst.
  destruct (first (N_of_ascii c0)) as [| |sz lo hi] eqn:Hfirst;
    try (cbn; lia).
  destruct (Nat.ltb_spec (String.length (String c0 s')) sz) as [|Hlen];
    [cbn; lia|].
  destruct (outside lo hi _); [cbn; lia|].
  destruct (Nat.leb_spec sz 2); [cbn [snd]; apply first_lead in Hfirst; lia|].
  destruct (outside 128 191 _); [cbn; lia|].
  destruct (Nat.leb_spec sz 3); [cbn [snd]; lia|].
  destruct (outside 128 191 _); [cbn; lia|].
  cbn [snd]. lia.
Qed.

Lemma length_dropBytes (n : nat) (s : string) :
  String.length (dropBytes n s) = String.length s - n.
Proof.
  revert s; induction n as [|n IH]; intros [|c s]; cbn; try reflexivity; try lia.
  apply IH.
Qed.

Lemma take_drop (n : nat) (s : string) : takeBytes n s ++ dropBytes n s = s.
Proof.
  revert s; induction n as [|n IH]; intros [|c s]; cbn; try reflexivity.
  now rewrite IH.
Qed.

Lemma takeBytes_app (n : nat) (t rest : string) :
  n <= String.length t -> takeBytes n (t ++ rest) = takeBytes n t.
Proof.
  revert t; induction n as [|n IH]; intros [|c t] H; cbn in *; try reflexivity; try lia.
  rewrite IH; [reflexivity|lia].
Qed.

Lemma dropBytes_app (n : nat) (t rest : string) :
  n <= String.length t -> dropBytes n (t ++ rest) = dropBytes n t ++ rest.
Proof.
  revert t; induction n as [|n IH]; intros [|c t] H; cbn in *; try reflexivity; try lia.
  apply IH. lia.
Qed.

(** More fuel than the length of the text changes nothing. *)
Lemma rangeFuel_any (fuel1 fuel2 : nat) (s : string) :
  String.length s <= fuel1 -> String.length s <= fuel2 ->
  rangeFuel fuel1 s = rangeFuel fuel2 s.
Proof.
  revert fuel2 s; induction fuel1 as [|fuel1 IH]; intros fuel2 s H1 H2.
  - destruct s; [|cbn in H1; lia]. now destruct fuel2.
  - destruct s as [|c s']; [now destruct fuel2|].
    destruct fuel2 as [|fuel2]; [cbn in H2; lia|].
    cbn [rangeFuel].
    pose proof (decode_size_pos c s') as Hpos.
    destruct (DecodeRuneInString (String c s')) as [r n]. cbn [snd] in Hpos.
    f_equal. apply IH; rewrite length_dropBytes; cbn [String.length] in *; lia.
Qed.

Lemma rangeString_cons (c : ascii) (s : string) :
  rangeString (String c s)
  = (fst (DecodeRuneInString (String c s)),
     takeBytes (snd (DecodeRuneInString (String c s))) (String c s))
    :: rangeString (dropBytes (snd (DecodeRuneInString (String c s))) (String c s)).
Proof.
  unfold rangeString. cbn [String.length rangeFuel].
  pose proof (decode_size_pos c s) as Hpos.
  destruct (DecodeRuneInString (String c s)) as [r n]. cbn [fst snd] in *.
  f_equal. apply rangeFuel_any; rewrite ?length_dropBytes; cbn [String.length]; lia.
Qed.

(** The runes of a text followed by another are the runes of the first
    and then those of the second, when the second does not begin with a
    continuation byte. *)
Lemma rangeString_app (t rest : string) :
  notContinuation rest ->
  rangeString (t ++ rest) = (rangeString t ++ rangeString rest)%list.
Proof.
  intros Hrest.
  remember (String.length t) as k eqn:Hk.
  revert t Hk; induction k as [k IH] using lt_wf_ind; intros t Hk.
  destruct t as [|c t']; [reflexivity|].
  cbn [append]. change (String c (t' ++ rest)) with (String c t' ++ rest).
  assert (E : DecodeRuneInString (String c t' ++ rest)
              = DecodeRuneInString (String c t'))
    by (apply decode_app; [discriminate|assumption]).
  cbn [append] in E. cbn [append]. rewrite !rangeString_cons, E.
  pose proof (decode_size_pos c t') as Hpos.
  pose proof (decode_size_le (String c t')) as Hle.
  destruct (DecodeRuneInString (String c t')) as [r n]. cbn [fst snd] in *.
  change (String c (t' ++ rest)) with (String c t' ++ rest).
  rewrite takeBytes_app, dropBytes_app by assumption.
  cbn [app]. f_equal.
  apply (IH (String.length (dropBytes n (String c t')))); [|reflexivity].
  rewrite length_dropBytes. subst k. cbn [String.length] in *. lia.
Qed.

Lemma rangeString_concat (s : string) :
  String.concat EmptyString (map snd (rangeString s)) = s.
Proof.
  remember (String.length s) as k eqn:Hk.
  revert s Hk; induction k as [k IH] using lt_wf_ind; intros s Hk.
  destruct s as [|c s']; [reflexivity|].
  rewrite rangeString_cons.
  pose proof (decode_size_pos c s') as Hpos.
  destruct (DecodeRuneInString (String c s')) as [r n]. cbn [fst snd map] in *.
  rewrite concat_cons.
  rewrite (IH (String.length (dropBytes n (String c s')))); [apply take_drop| |reflexivity].
  rewrite length_dropBytes. subst k. cbn [String.length]. lia.
Qed.

Lemma split_app (runes1 runes2 : list (N * string)) (d : N * string) (cur : string) :
  isDelimiter d = true ->
  filter nonEmpty (splitAtDelimiters (runes1 ++ d :: runes2) cur)
  = (filter nonEmpty (splitAtDelimiters runes1 cur)
     ++ filter nonEmpty (splitAtDelimiters runes2 EmptyString))%list.
Proof.
  intros Hd. revert cur; induction runes1 as [|rb runes1 IH]; intros cur.
  - cbn [app splitAtDelimiters filter]. rewrite Hd. cbn [filter].
    destruct (nonEmpty cur); reflexivity.
  - cbn [app splitAtDelimiters]. destruct (isDelimiter rb); cbn [filter].
    + rewrite IH. now destruct (nonEmpty cur).
    + apply IH.
Qed.

Lemma delimiter_byte_rune (c : ascii) :
  isDelimiterByte c = true ->
  rangeString (String c EmptyString) = [(N_of_ascii c, String c EmptyString)]
  /\ isDelimiter (N_of_ascii c, String c EmptyString) = true
  /\ notContinuation (String c EmptyString).
Proof.
  unfold isDelimiterByte, notContinuation, isDelimiter.
  destruct c as [[] [] [] [] [] [] [] []]; cbn; intros H;
    try discriminate; repeat split.
Qed.

Lemma parse_is_split (v : version) (raw : string) :
  parsePrefixesOf v raw = splitPrefixes raw.
Proof. destruct v; apply fields_replace_split. Qed.

Lemma parsePrefixes_of_joined_parts
        (v : version) (a b : string) (c : ascii) :
  isDelimiterByte c = true ->
  parsePrefixesOf v (a ++ String c b)
  = (parsePrefixesOf v a ++ parsePrefixesOf v b)%list.
Proof.
  intros Hc. rewrite !parse_is_split. unfold splitPrefixes.
  destruct (delimiter_byte_rune c Hc) as (R & D & NC).
  assert (NC' : notContinuation (String c b)) by exact NC.
  rewrite (rangeString_app a (String c b) NC').
  rewrite rangeString_cons.
  change (DecodeRuneInString (String c b))
    with (decodeFirst (N_of_ascii c) (String c b)).
  assert (E : decodeFirst (N_of_ascii c) (String c b) = (N_of_ascii c, 1)).
  { assert (F : first (N_of_ascii c) = IsASCII).
    { revert Hc. unfold isDelimiterByte.
      destruct c as [[] [] [] [] [] [] [] []]; cbn; intros H;
        try discriminate; reflexivity. }
    unfold decodeFirst. now rewrite F. }
  rewrite E. cbn [fst snd takeBytes dropBytes].
  now apply split_app.
Qed.

(** X7: a flag made of two parts with a comma or an ASCII white space
    byte between them parses to the prefixes of the first part followed
    by those of the second. *)
Theorem parsePrefixes_distributes_over_delimiter
        (v : version) (a b : string) (c : ascii) :
  isDelimiterByte c = true ->
  parsePrefixesOf v (a ++ String c b)
  = (parsePrefixesOf v a ++ parsePrefixesOf v b)%list.
Proof. apply parsePrefixes_of_joined_parts. Qed.

Lemma parsePrefixes_distributes_witness :
  parsePrefixesOf CmdWebshare ("192 ,10" ++ String "009" "172.16,")
  = (parsePrefixesOf CmdWebshare "192 ,10" ++ parsePrefixesOf CmdWebshare "172.16,")%list.
Proof.
  apply parsePrefixes_distributes_over_delimiter. reflexivity.
Defined.

Lemma byteAt_app_lt (i : nat) (t rest : string) :
  i < String.length t -> byteAt i (t ++ rest) = byteAt i t.
Proof.
  revert t; induction i as [|i IH]; intros [|c t] H; cbn in H; try lia.
  - reflexivity.
  - cbn [append]. rewrite !byteAt_S. apply IH. lia.
Qed.

Lemma length_append (a b : string) :
  String.length (a ++ b) = String.length a + String.length b.
Proof. induction a; cbn; congruence. Qed.

(** The first rune of a text is the first rune of each of its beginnings
    that hold all the bytes of the rune. *)
Lemma decode_prefix (t rest : string) :
  t <> EmptyString ->
  snd (DecodeRuneInString (t ++ rest)) <= String.length t ->
  DecodeRuneInString t = DecodeRuneInString (t ++ rest).
Proof.
  intros Ht. destruct t as [|c0 t']; [congruence|]. clear Ht.
  cbn [append DecodeRuneInString]. unfold decodeFirst.
  change (String c0 (t' ++ rest)) with (String c0 t' ++ rest).
  set (t := String c0 t').
  destruct (first (N_of_ascii c0)) as [| |sz lo hi] eqn:Hfirst; try reflexivity.
  pose proof (first_lead _ _ _ _ Hfirst) as (_ & _ & Hsz).
  destruct (Nat.ltb_spec (String.length t) sz) as [Hshort|Hlong].
  - (* the text ends inside the sequence *)
    destruct (String.length (t ++ rest) <? sz)%nat; [reflexivity|].
    destruct (outside lo hi (byteAt 1 (t ++ rest))); [reflexivity|].
    destruct (Nat.leb_spec sz 2); [cbn [snd]; lia|].
    destruct (outside 128 191 (byteAt 2 (t ++ rest))); [reflexivity|].
    destruct (Nat.leb_spec sz 3); [cbn [snd]; lia|].
    destruct (outside 128 191 (byteAt 3 (t ++ rest))); [reflexivity|].
    cbn [snd]. lia.
  - intros _.
    assert (L : (String.length (t ++ rest) <? sz)%nat = false).
    { apply Nat.ltb_ge. rewrite length_append. lia. }
    rewrite L.
    rewrite (byteAt_app_lt 1) by lia.
    destruct (outside lo hi (byteAt 1 t)); [reflexivity|].
    destruct (Nat.leb_spec sz 2); [reflexivity|].
    rewrite (byteAt_app_lt 2) by lia.
    destruct (outside 128 191 (byteAt 2 t)); [reflexivity|].
    destruct (Nat.leb_spec sz 3); [reflexivity|].
    rewrite (byteAt_app_lt 3) by lia. reflexivity.
Qed.

Lemma bytesOf_cons (rb : N * string) (l : list (N * string)) :
  bytesOf (rb :: l) = snd rb ++ bytesOf l.
Proof. unfold bytesOf. cbn [map]. apply concat_cons. Qed.

Lemma bytesOf_app (l1 l2 : list (N * string)) :
  bytesOf (l1 ++ l2)%list = bytesOf l1 ++ bytesOf l2.
Proof.
  induction l1 as [|rb l1 IH]; [reflexivity|].
  cbn [app]. now rewrite !bytesOf_cons, IH, string_app_assoc.
Qed.

Lemma length_takeBytes (n : nat) (s : string) :
  n <= String.length s -> String.length (takeBytes n s) = n.
Proof.
  revert s; induction n as [|n IH]; intros [|c s] H; cbn in *; try lia.
  rewrite IH; lia.
Qed.

(** The runes of a text from a rune boundary on. *)
Lemma dropBytes_add (n m : nat) (s : string) :
  dropBytes (n + m) s = dropBytes m (dropBytes n s).
Proof.
  revert m s; induction n as [|n IH]; intros m [|c s]; cbn; try reflexivity.
  - now destruct m.
  - apply IH.
Qed.

Lemma takeBytes_length_app (a b : string) : takeBytes (String.length a) (a ++ b) = a.
Proof. induction a; cbn; [reflexivity|now rewrite IHa]. Qed.

Lemma dropBytes_length_app (a b : string) : dropBytes (String.length a) (a ++ b) = b.
Proof. induction a; cbn; [reflexivity|assumption]. Qed.

(** A text with its first rune split off. *)
Lemma rangeString_head (z : string) (ch : N * string) (rest : list (N * string)) :
  rangeString z = ch :: rest ->
  z <> EmptyString
  /\ DecodeRuneInString z = (fst ch, String.length (snd ch))
  /\ z = snd ch ++ dropBytes (String.length (snd ch)) z
  /\ rangeString (dropBytes (String.length (snd ch)) z) = rest.
Proof.
  destruct z as [|c z']; [discriminate|].
  rewrite rangeString_cons.
  pose proof (decode_size_le (String c z')) as Hle.
  destruct (DecodeRuneInString (String c z')) as [r n]. cbn [fst snd] in *.
  intros [= <- <-]. cbn [fst snd].
  rewrite length_takeBytes by assumption.
  split; [discriminate|]. split; [reflexivity|]. split; [|reflexivity].
  symmetry. apply take_drop.
Qed.

Lemma range_suffix (L R : list (N * string)) (z : string) :
  rangeString z = (L ++ R)%list -> rangeString (dropBytes (String.length (bytesOf L)) z) = R.
Proof.
  revert z; induction L as [|ch L IH]; intros z H; [exact H|].
  cbn [app] in H. apply rangeString_head in H as (_ & _ & _ & H).
  rewrite bytesOf_cons, length_append, dropBytes_add. now apply IH.
Qed.

(** The runes of a text up to a rune boundary. *)
Lemma range_prefix (L R : list (N * string)) (z : string) :
  rangeString z = (L ++ R)%list -> rangeString (bytesOf L) = L.
Proof.
  revert z; induction L as [|ch L IH]; intros z H; [reflexivity|].
  cbn [app] in H. apply rangeString_head in H as (Hz & D & Ez & H).
  pose proof (range_suffix L R _ H) as HR.
  specialize (IH _ H).
  (* z is the bytes of the rune, those of L, and the rest *)
  pose proof (rangeString_concat (dropBytes (String.length (snd ch)) z)) as Ec.
  rewrite H in Ec. fold (bytesOf (L ++ R)%list) in Ec. rewrite bytesOf_app in Ec.
  rewrite <- Ec in Ez.
  assert (Hpos : 1 <= String.length (snd ch)).
  { destruct z as [|c z']; [congruence|].
    pose proof (decode_size_pos c z') as P. rewrite D in P. exact P. }
  assert (Hne : snd ch ++ bytesOf L <> EmptyString).
  { destruct (snd ch); [cbn in Hpos; lia|discriminate]. }
  assert (D' : DecodeRuneInString (snd ch ++ bytesOf L)
               = (fst ch, String.length (snd ch))).
  { rewrite <- D, Ez, <- string_app_assoc.
    apply decode_prefix; [exact Hne|].
    rewrite string_app_assoc, <- Ez, D. cbn [snd]. rewrite length_append. lia. }
  rewrite bytesOf_cons.
  destruct (snd ch ++ bytesOf L) as [|c' y] eqn:Ey; [congruence|].
  rewrite rangeString_cons, D'. cbn [fst snd]. rewrite <- Ey.
  rewrite takeBytes_length_app, dropBytes_length_app, IH.
  now destruct ch.
Qed.

(** A run of runes of a text, on its own, has the same runes. *)
Lemma range_segment (Lpre Lmid Lpost : list (N * string)) (z : string) :
  rangeString z = (Lpre ++ Lmid ++ Lpost)%list -> rangeString (bytesOf Lmid) = Lmid.
Proof.
  intros H. apply range_suffix in H. now apply range_prefix in H.
Qed.

(** Every piece of the split is the bytes of a run of runes that are not
    delimiters. *)
Lemma split_pieces_are_runs (L Lcur : list (N * string)) (t : string) :
  forallb (fun rb => negb (isDelimiter rb)) Lcur = true ->
  In t (splitAtDelimiters L (bytesOf Lcur)) ->
  exists Lpre Lmid Lpost,
    (Lcur ++ L = Lpre ++ Lmid ++ Lpost)%list
    /\ t = bytesOf Lmid
    /\ forallb (fun rb => negb (isDelimiter rb)) Lmid = true.
Proof.
  revert Lcur; induction L as [|ch L IH]; intros Lcur Hcur Hin.
  - destruct Hin as [<-|[]]. exists [], Lcur, []. now rewrite !app_nil_r.
  - cbn [splitAtDelimiters] in Hin. destruct (isDelimiter ch) eqn:Hd.
    + destruct Hin as [<-|Hin].
      * exists [], Lcur, (ch :: L). auto.
      * destruct (IH [] eq_refl Hin) as (Lpre & Lmid & Lpost & E & Ht & Hm).
        exists (Lcur ++ ch :: Lpre)%list, Lmid, Lpost. cbn [app] in E.
        rewrite E, <- app_assoc. auto.
    + assert (Hcur' : forallb (fun rb => negb (isDelimiter rb)) (Lcur ++ [ch]) = true).
      { rewrite forallb_app, Hcur. cbn. now rewrite Hd. }
      assert (Eb : bytesOf (Lcur ++ [ch]) = bytesOf Lcur ++ snd ch).
      { rewrite bytesOf_app, bytesOf_cons. unfold bytesOf at 2. cbn.
        now rewrite string_app_nil_r. }
      rewrite <- Eb in Hin.
      destruct (IH _ Hcur' Hin) as (Lpre & Lmid & Lpost & E & Ht & Hm).
      exists Lpre, Lmid, Lpost. rewrite <- app_assoc in E. auto.
Qed.

Lemma parsed_prefix_is_token (v : version) (raw t : string) :
  In t (parsePrefixesOf v raw) -> isToken t = true.
Proof.
  rewrite parse_is_split. unfold splitPrefixes. intros Hin.
  apply filter_In in Hin as [Hin Hne].
  destruct (split_pieces_are_runs (rangeString raw) [] t eq_refl Hin)
    as (Lpre & Lmid & Lpost & E & -> & Hm).
  cbn [app] in E. unfold isToken. rewrite Hne.
  now rewrite (range_segment _ _ _ _ E).
Qed.

Lemma split_without_delimiters (runes : list (N * string)) (cur : string) :
  forallb (fun rb => negb (isDelimiter rb)) runes = true ->
  splitAtDelimiters runes cur = [cur ++ bytesOf runes].
Proof.
  revert cur; induction runes as [|rb runes IH]; intros cur H.
  - cbn. now rewrite string_app_nil_r.
  - cbn [forallb] in H. apply andb_true_iff in H as [H1 H2].
    cbn [splitAtDelimiters]. apply negb_true_iff in H1. rewrite H1.
    now rewrite IH, bytesOf_cons, string_app_assoc.
Qed.

Lemma token_parses_to_itself (v : version) (t : string) :
  isToken t = true -> parsePrefixesOf v t = [t].
Proof.
  unfold isToken. intros H. apply andb_true_iff in H as [Hne H].
  rewrite parse_is_split. unfold splitPrefixes.
  rewrite (split_without_delimiters _ _ H). cbn [append].
  unfold bytesOf. rewrite rangeString_concat. cbn [filter]. now rewrite Hne.
Qed.

Lemma joined_tokens_parse_back (v : version) (ts : list string) :
  forallb isToken ts = true ->
  parsePrefixesOf v (String.concat "," ts) = ts.
Proof.
  induction ts as [|t ts IH]; intros H.
  - now destruct v.
  - cbn [forallb] in H. apply andb_true_iff in H as [Ht Hts].
    destruct ts as [|t2 ts].
    + cbn [String.concat]. now apply token_parses_to_itself.
    + change (String.concat "," (t :: t2 :: ts))
        with (t ++ String "," (String.concat "," (t2 :: ts))).
      rewrite parsePrefixes_of_joined_parts by reflexivity.
      rewrite token_parses_to_itself by assumption.
      now rewrite IH.
Qed.

(** X8: every prefix that [parsePrefixes] returns is a pattern of its
    own: it is not empty and, read as a text, has no comma and no white
    space in it. *)
Theorem parsed_prefixes_are_tokens (v : version) (raw : string) :
  forallb isToken (parsePrefixesOf v raw) = true.
Proof.
  apply forallb_forall. intros t. apply parsed_prefix_is_token.
Qed.

(** X9: a list of patterns written with commas between them parses back
    to the list. *)
Theorem joined_patterns_round_trip (v : version) (ts : list string) :
  forallb isToken ts = true ->
  parsePrefixesOf v (String.concat "," ts) = ts.
Proof. apply joined_tokens_parse_back. Qed.

Lemma joined_patterns_round_trip_witness :
  parsePrefixesOf Timed (String.concat "," ["192.168"; "10"; "fe80::"])
  = ["192.168"; "10"; "fe80::"].
Proof. apply joined_patterns_round_trip. reflexivity. Defined.

(** X10: parsing is stable: the prefixes of a flag, written with commas
    between them, parse to the same prefixes. *)
Theorem parsePrefixes_is_stable (v : version) (raw : string) :
  parsePrefixesOf v (String.concat "," (parsePrefixesOf v raw))
  = parsePrefixesOf v raw.
Proof.
  apply joined_tokens_parse_back, forallb_forall.
  intros t. apply parsed_prefix_is_token.
Qed.

(* ================================================================== *)
(** * Further properties of the shutdown                               *)
(* ================================================================== *)

Ltac step_cases :=
  unfold step, callCancel; cbn;
  repeat match goal with
         | |- context [match ?x with _ => _ end] => destruct x eqn:?
         end.

Lemma active_not_growing (l : label) (s s' : state) :
  step l s = Some s' -> pc s <> Serve -> active s' <= active s.
Proof.
  destruct l; step_cases; intros [= <-]; cbn; intros; try congruence; lia.
Qed.

Lemma exec_app (ls1 ls2 : list label) (s : state) :
  exec (ls1 ++ ls2) s
  = match exec ls1 s with
    | Some s1 => exec ls2 s1
    | None => None
    end.
Proof.
  revert s; induction ls1 as [|l ls1 IH]; intros s; [reflexivity|].
  cbn. destruct (step l s); [apply IH|reflexivity].
Qed.

Lemma exec_stopping_invariants (ls : list label) (s s' : state) :
  exec ls s = Some s' -> pc s <> Serve ->
  pc s' <> Serve /\ active s' <= active s.
Proof.
  revert s; induction ls as [|l ls IH]; intros s; cbn.
  - intros [= <-]. auto.
  - destruct (step l s) as [s1|] eqn:E; [|discriminate].
    intros H Hs.
    pose proof (never_back_to_serve _ _ _ E Hs) as H1.
    pose proof (active_not_growing _ _ _ E Hs) as H2.
    destruct (IH s1 H H1). split; [assumption|lia].
Qed.

(** X11: once [main] has left [<-ctx.Done()], no schedule takes it back
    to serving, and no request is accepted any more: the number of
    requests in flight only goes down. *)
Theorem shutdown_is_one_way
        (timeout : Z) (tr : list event) (before after : list label) (s s' : state) :
  exec before (serving timeout tr) = Some s ->
  pc s <> Serve ->
  exec after s = Some s' ->
  pc s' <> Serve /\ active s' <= active s.
Proof. intros _ Hs H. now apply (exec_stopping_invariants after). Qed.

Lemma shutdown_is_one_way_witness :
  match exec [ConnCloses; SignalArrives; SignalReceived; ShutdownReturns] stoppingSample with
  | Some s' => pc s' <> Serve /\ active s' <= 2
  | None => False
  end.
Proof.
  pose proof (shutdown_is_one_way second []
                [ConnOpens; ConnOpens; TimerFires; DoneObserved]
                [ConnCloses; SignalArrives; SignalReceived; ShutdownReturns]
                stoppingSample) as H.
  destruct (exec [ConnCloses; SignalArrives; SignalReceived; ShutdownReturns]
                 stoppingSample) as [s'|] eqn:E; [|discriminate E].
  apply (H s'); [reflexivity|discriminate|reflexivity].
Defined.

Lemma timer_budget (ls : list label) (s s' : state) :
  exec ls s = Some s' ->
  timesTaken isTimerFires ls <= match timer s with Armed => 1 | _ => 0 end.
Proof.
  unfold timesTaken.
  revert s; induction ls as [|l ls IH]; intros s; cbn; [intros _; destruct (timer s); lia|].
  destruct (step l s) as [s1|] eqn:E; [|discriminate].
  intros H. specialize (IH s1 H).
  assert (T : match l with
              | TimerFires => timer s = Armed /\ timer s1 = Fired
              | _ => timer s1 = timer s
              end).
  { revert E. destruct l; step_cases; intros [= <-]; cbn; auto. }
  destruct l; cbn [isTimerFires List.length] in *;
    try (rewrite T in IH; exact IH).
  destruct T as [-> T]. rewrite T in IH. lia.
Qed.

Lemma signal_budget (ls : list label) (s s' : state) :
  exec ls s = Some s' ->
  timesTaken isSignalReceived ls <= if sigWaiting s then 1 else 0.
Proof.
  unfold timesTaken.
  revert s; induction ls as [|l ls IH]; intros s; cbn; [intros _; destruct (sigWaiting s); lia|].
  destruct (step l s) as [s1|] eqn:E; [|discriminate].
  intros H. specialize (IH s1 H).
  assert (T : match l with
              | SignalReceived => sigWaiting s = true /\ sigWaiting s1 = false
              | _ => sigWaiting s1 = sigWaiting s
              end).
  { revert E. destruct l; step_cases; intros [= <-]; cbn; auto.
    all: match goal with
         | H : _ && _ = true |- _ => apply andb_true_iff in H as [-> _]
         end; auto. }
  destruct l; cbn [isSignalReceived List.length] in *;
    try (rewrite T in IH; exact IH).
  destruct T as [-> T]. rewrite T in IH. lia.
Qed.

(** X12: in every schedule the function given to [time.AfterFunc] runs
    at most once, and never for a [-t] that is not positive; the signal
    goroutine handles at most one signal. *)
Theorem each_trigger_acts_at_most_once
        (timeout : Z) (tr : list event) (ls : list label) (s : state) :
  exec ls (serving timeout tr) = Some s ->
  timesTaken isTimerFires ls <= 1
  /\ ((timeout <= 0)%Z -> timesTaken isTimerFires ls = 0)
  /\ timesTaken isSignalReceived ls <= 1.
Proof.
  intros H.
  pose proof (timer_budget _ _ _ H) as HT.
  pose proof (signal_budget _ _ _ H) as HS.
  cbn [serving timer sigWaiting] in *.
  split; [destruct (0 <? timeout)%Z; lia|]. split; [|exact HS].
  intros Hle. destruct (Z.ltb_spec 0 timeout); lia.
Qed.

Lemma each_trigger_witness :
  timesTaken isTimerFires
             [SignalArrives; SignalArrives; SignalReceived; DoneObserved; SignalArrives] = 0
  /\ timesTaken isSignalReceived
                [SignalArrives; SignalArrives; SignalReceived; DoneObserved; SignalArrives] <= 1.
Proof.
  destruct (each_trigger_acts_at_most_once
              0 [] [SignalArrives; SignalArrives; SignalReceived; DoneObserved; SignalArrives]
              _ eq_refl) as (_ & H0 & H1).
  split; [apply H0; apply Z.le_refl|exact H1].
Defined.

(** While the timer is not armed and [ctx] is not done, only the step of
    the signal goroutine ends the serving. *)
Lemma stops_only_by_signal (ls : list label) (s s' : state) :
  exec ls s = Some s' ->
  timer s = NoTimer -> pc s = Serve -> ctxDone s = false ->
  pc s' = Stopping \/ pc s' = Stopped ->
  In SignalReceived ls.
Proof.
  revert s; induction ls as [|l ls IH]; intros s; cbn.
  - intros [= <-] _ Hp _ [H|H]; congruence.
  - destruct (step l s) as [s1|] eqn:E; [|discriminate].
    intros H Ht Hp Hc Hs'.
    destruct l; auto; right.
    all: revert E; unfold step; rewrite ?Ht, ?Hp, ?Hc; cbn; try discriminate.
    all: try (intros [= <-]; now apply (IH _ H)).
    + destruct (active s); [discriminate|]. intros [= <-]. now apply (IH _ H).
    + (* the server fails: nothing follows *)
      intros [= <-]. exfalso. clear -H Hs'.
      destruct ls as [|l ls]; cbn in H.
      * injection H as <-. cbn in Hs'. destruct Hs'; discriminate.
      * destruct l; discriminate.
Qed.

(** X13: without a positive [-t], the server stops only after the signal
    goroutine has received a signal. *)
Theorem without_timeout_only_a_signal_stops
        (timeout : Z) (tr : list event) (ls : list label) (s : state) :
  (timeout <= 0)%Z ->
  exec ls (serving timeout tr) = Some s ->
  pc s = Stopping \/ pc s = Stopped ->
  In SignalReceived ls.
Proof.
  intros Hle H Hs. apply (stops_only_by_signal _ _ _ H); auto.
  cbn. destruct (Z.ltb_spec 0 timeout); [lia|reflexivity].
Qed.

Lemma without_timeout_witness :
  In SignalReceived [ConnOpens; SignalArrives; SignalReceived; DoneObserved].
Proof.
  refine (without_timeout_only_a_signal_stops
            0 [] [ConnOpens; SignalArrives; SignalReceived; DoneObserved] _ _ eq_refl _).
  - apply Z.le_refl.
  - left. reflexivity.
Defined.



(* ================================================================== *)
(** * The logging handler                                              *)
(* ================================================================== *)

Lemma noLeadingSlash_cons (c : ascii) (out : list ascii) :
  noLeadingSlash out -> (out = [] -> c <> "/"%char) -> noLeadingSlash (c :: out).
Proof.
  unfold noLeadingSlash. destruct out as [|d out]; cbn; auto.
Qed.

Lemma noLeadingSlash_tail (c : ascii) (out : list ascii) :
  noLeadingSlash (c :: out) -> noLeadingSlash out.
Proof.
  unfold noLeadingSlash. destruct out as [|d out]; cbn; [discriminate|auto].
Qed.

Lemma backtrack_noLeadingSlash (dotdot : nat) (out : list ascii) :
  noLeadingSlash out -> noLeadingSlash (GoPath.backtrack dotdot out).
Proof.
  induction out as [|c out IH]; intros H; [exact H|].
  cbn [GoPath.backtrack]. apply noLeadingSlash_tail in H.
  destruct (_ && _); auto.
Qed.

Lemma copyElement_noLeadingSlash (rest : string) (out : list ascii) :
  noLeadingSlash out -> noLeadingSlash (snd (GoPath.copyElement rest out)).
Proof.
  revert out; induction rest as [|c rest IH]; intros out H; [exact H|].
  cbn [GoPath.copyElement].
  destruct (Ascii.eqb_spec c GoPath.slash) as [->|Hc]; [exact H|].
  apply IH. apply noLeadingSlash_cons; auto.
Qed.

Lemma cleanLoop_noLeadingSlash (fuel : nat) (rest : string) (out : list ascii)
      (dotdot : nat) :
  noLeadingSlash out ->
  noLeadingSlash (GoPath.cleanLoop fuel false rest out dotdot).
Proof.
  revert rest out dotdot; induction fuel as [|fuel IH]; intros rest out dotdot H;
    [exact H|].
  cbn [GoPath.cleanLoop]. destruct rest as [|c rest']; [exact H|].
  destruct (Ascii.eqb c GoPath.slash); [now apply IH|].
  destruct (GoPath.atDot (String c rest')); [now apply IH|].
  destruct (GoPath.atDotDot (String c rest')).
  - destruct (dotdot <? List.length out)%nat.
    + apply IH. now apply backtrack_noLeadingSlash.
    + cbn [negb]. apply IH.
      destruct out as [|d out]; [cbn; unfold noLeadingSlash; cbn; discriminate|].
      cbn [List.length Nat.ltb Nat.leb].
      repeat (apply noLeadingSlash_cons; [|discriminate]). exact H.
  - cbn [andb orb negb].
    pose proof (copyElement_noLeadingSlash (String c rest')
                  (if negb (List.length out =? 0)%nat then GoPath.slash :: out else out))
      as Hc.
    destruct (GoPath.copyElement (String c rest') _) as [rest3 out2].
    apply IH. apply Hc.
    destruct out as [|d out]; [exact H|].
    cbn. apply noLeadingSlash_cons; [exact H|discriminate].
Qed.

Lemma string_of_rev_relative (out : list ascii) :
  out <> [] -> noLeadingSlash out ->
  relativeName (string_of_list_ascii (rev out)) = true.
Proof.
  unfold noLeadingSlash. intros Hne H.
  destruct out as [|c out] using rev_ind; [congruence|].
  rewrite rev_app_distr. cbn. rewrite last_last in H.
  now destruct (Ascii.eqb_spec c "/").
Qed.

(** The name [loggingHandler] opens for a request path. *)
Lemma joined_name_is_relative (p : string) :
  relativeName (GoPath.Join ["."; p]) = true.
Proof.
  unfold GoPath.Join. cbn [fold_left String.length Nat.add Nat.eqb].
  cbn [GoPath.joinElems String.length Nat.eqb negb orb String.eqb append].
  change ("." ++ "/")%string with "./"%string.
  unfold GoPath.Clean. cbn [append Ascii.eqb Bool.eqb].
  match goal with
  | |- context [GoPath.cleanLoop ?f false ?r [] 0] =>
    pose proof (cleanLoop_noLeadingSlash f r [] 0) as H;
    destruct (GoPath.cleanLoop f false r [] 0) as [|c out] eqn:E
  end; [reflexivity|].
  apply string_of_rev_relative; [discriminate|].
  apply H. unfold noLeadingSlash. cbn. discriminate.
Qed.

(** X15: whatever the file system answers, [loggingHandler] logs the
    request first, hands it to the wrapped handler exactly once, opens
    one file and closes it after the request is served if and only if
    it could be opened; the name it opens is never empty and never
    begins with a slash, so it is always taken from the working
    directory. *)
Theorem loggingHandler_always_serves (fs : FileSystem) (r : Request) :
  let fn := GoPath.Join ["."; URLPath r] in
  let served (tr : list handlerEvent) :=
      hd_error tr = Some (Println (RemoteAddr r ++ " " ++ Method r ++ " " ++ URLPath r))
      /\ servedRequests tr = [r]
      /\ openedNames tr = [fn]
      /\ closedNames tr = match fs fn with Some _ => [fn] | None => [] end
      /\ last tr (ServeHTTP r)
         = match fs fn with Some _ => FileClose fn | None => ServeHTTP r end in
  served (MainGo.loggingHandler fs r)
  /\ served (Part000.loggingHandler fs r)
  /\ relativeName fn = true.
Proof.
  cbv zeta. unfold MainGo.loggingHandler, Part000.loggingHandler.
  split; [|split; [|apply joined_name_is_relative]].
  all: destruct (fs (GoPath.Join ["."; URLPath r])) as [[size|]|];
    repeat split.
Qed.
